(** * web_scraper.py: URL utilities, excerpts, the recursive crawl and the
    mode dispatcher, as a shallow embedding.

    Python [str] values are modelled as [string]; each character stands for
    one code point below 256.  Python [int] values are modelled as [Z].
    The visited set of the crawl is a [gset string].  A call that can raise
    gives an [except] value, and what is printed before an exception stays
    in the output trace. *)

From Stdlib Require Import ZArith Ascii String.
From stdpp Require Import base tactics option list sets gmap strings.
From stdpp Require Import sorting.

(** ** Python string primitives *)

Module Py.

Definition chars (s : string) : list ascii := String.list_ascii_of_string s.
Definition str (l : list ascii) : string := String.string_of_list_ascii l.

(** [len(s)] *)
Definition len (s : string) : Z := Z.of_nat (length (chars s)).

(** [s.endswith(suffix)] *)
Definition endswith (s suffix : string) : bool :=
  bool_decide (chars suffix `suffix_of` chars s).

(** [s.startswith(prefix)] *)
Definition startswith (s pre : string) : bool :=
  bool_decide (chars pre `prefix_of` chars s).

(** [sub in s] on lists of characters: [sub] occurs as a contiguous block. *)
Fixpoint occurs_in (sub l : list ascii) : bool :=
  bool_decide (sub `prefix_of` l) ||
  match l with
  | [] => false
  | _ :: l' => occurs_in sub l'
  end.

(** [sub in s] *)
Definition contains (sub s : string) : bool := occurs_in (chars sub) (chars s).

(** [l[:k]] for a Python int [k]: a negative [k] counts from the end. *)
Definition slice_to {A} (l : list A) (k : Z) : list A :=
  if (0 <=? k)%Z then take (Z.to_nat k) l
  else take (length l - Z.to_nat (- k)) l.

(** [str.isspace] on one code point below 256 (the characters that
    [str.split()] treats as separators). *)
Definition isspace (c : ascii) : bool :=
  let n := nat_of_ascii c in
  ((9 <=? n) && (n <=? 13)) || ((28 <=? n) && (n <=? 32))
  || (n =? 133) || (n =? 160).

Definition space : ascii := " "%char.
Definition newline : ascii := "010"%char.

End Py.

(** ** Exceptions

    What a call gives: its value, or the exception it raises, kept as the
    message [str(e)].  The exceptions followed here are the [ValueError]s
    of [urllib.parse], whose functions the program calls outside the [try]
    blocks of [parse_sitemap] and [crawl_single_page]; the handler they
    reach is the one of [scrape_url]. *)

Inductive except (A : Type) :=
  | Value (a : A)
  | Raises (error : string).

Global Arguments Value {A} a.
Global Arguments Raises {A} error.

Global Instance except_eq_dec `{EqDecision A} : EqDecision (except A).
Proof. solve_decision. Defined.

Global Instance except_bind : MBind except :=
  λ A B f x, match x with Value a => f a | Raises e => Raises e end.

(** [[f(x) for x in l]], stopping at the first call that raises. *)
Fixpoint map_except {A B} (f : A → except B) (l : list A) : except (list B) :=
  match l with
  | [] => Value []
  | x :: l' => y ← f x; ys ← map_except f l'; Value (y :: ys)
  end.

(** ** urllib.parse

    [urlparse], [urldefrag] and [urljoin] are library functions; each can
    raise [ValueError] on a malformed URL.  The development is parametric in
    them; [urllib_model] below is an executable model used for concrete
    URLs. *)

Class Urllib := {
  (** [urlparse(url).netloc] *)
  urlparse_netloc : string → except string;
  (** [urlparse(url).path] *)
  urlparse_path : string → except string;
  (** [urldefrag(url)[0]] *)
  urldefrag_url : string → except string;
  (** [urljoin(base, url)] *)
  urljoin : string → string → except string;
}.

Module UrlModel.

(** [(before, Some after)] around the first character satisfying [p],
    [(l, None)] when there is none: the shape of [s.split(c, 1)]. *)
Fixpoint break_at (p : ascii → bool) (l : list ascii)
  : list ascii * option (list ascii) :=
  match l with
  | [] => ([], None)
  | c :: l' =>
      if p c then ([], Some l')
      else let '(a, b) := break_at p l' in (c :: a, b)
  end.

(** The longest prefix without a character satisfying [p], and the rest. *)
Fixpoint span_until (p : ascii → bool) (l : list ascii)
  : list ascii * list ascii :=
  match l with
  | [] => ([], [])
  | c :: l' =>
      if p c then ([], l)
      else let '(a, b) := span_until p l' in (c :: a, b)
  end.

Definition is_char (c d : ascii) : bool := bool_decide (c = d).

Definition is_alpha (c : ascii) : bool :=
  let n := nat_of_ascii c in
  ((65 <=? n) && (n <=? 90)) || ((97 <=? n) && (n <=? 122)).

Definition is_digit (c : ascii) : bool :=
  let n := nat_of_ascii c in (48 <=? n) && (n <=? 57).

(** [scheme_chars]: letters, digits and [+-.] *)
Definition scheme_char (c : ascii) : bool :=
  is_alpha c || is_digit c
  || is_char c "+"%char || is_char c "-"%char || is_char c "."%char.

Definition lower (c : ascii) : ascii :=
  let n := nat_of_ascii c in
  if (65 <=? n) && (n <=? 90) then ascii_of_nat (n + 32) else c.

Record parts := {
  p_scheme : list ascii;
  p_netloc : list ascii;
  p_path : list ascii;
  p_query : list ascii;
  p_fragment : list ascii;
}.

(** The core of [urlsplit]: scheme up to the first [:], network location
    after [//] up to the first of [/?#], fragment after the first [#],
    query after the first [?].  Left out: stripping of leading control
    characters and of tab/CR/LF, the [;params] split of [urlparse], and
    the validity checks that raise. *)
Definition urlsplit (url : list ascii) : parts :=
  let '(scheme, rest) :=
    match break_at (is_char ":"%char) url with
    | (c :: pre, Some after) =>
        if is_alpha c && forallb scheme_char (c :: pre)
        then (map lower (c :: pre), after)
        else ([], url)
    | _ => ([], url)
    end in
  let '(netloc, rest) :=
    match rest with
    | "/"%char :: "/"%char :: r =>
        span_until (λ c, is_char c "/"%char || is_char c "?"%char
                         || is_char c "#"%char) r
    | _ => ([], rest)
    end in
  let '(rest, fragment) :=
    match break_at (is_char "#"%char) rest with
    | (a, Some b) => (a, b)
    | (a, None) => (a, [])
    end in
  let '(path, query) :=
    match break_at (is_char "?"%char) rest with
    | (a, Some b) => (a, b)
    | (a, None) => (a, [])
    end in
  {| p_scheme := scheme; p_netloc := netloc; p_path := path;
     p_query := query; p_fragment := fragment |}.

(** [urldefrag(url)[0]]: the URL unchanged when it has no [#], otherwise
    what precedes the first [#] (re-serialisation of the other components
    is taken to give them back as they were). *)
Definition defrag (url : list ascii) : list ascii :=
  fst (break_at (is_char "#"%char) url).

Definition has_char (c : ascii) (l : list ascii) : bool :=
  existsb (is_char c) l.

(** The check of [urlsplit] on the network location: a [[] without a
    []], or the reverse, raises [ValueError("Invalid IPv6 URL")].  Left
    out: the later checks on what stands between matching brackets. *)
Definition urlsplit_checked (url : list ascii) : except parts :=
  let p := urlsplit url in
  if xorb (has_char "["%char (p_netloc p)) (has_char "]"%char (p_netloc p))
  then Raises "Invalid IPv6 URL"
  else Value p.

(** [urldefrag]: the URL is parsed only when it has a [#]. *)
Definition defrag_checked (url : list ascii) : except (list ascii) :=
  if has_char "#"%char url then
    _ ← urlsplit_checked url; Value (defrag url)
  else Value url.

(** The path of [l] up to and including its last [/]. *)
Fixpoint directory (l : list ascii) : list ascii :=
  match l with
  | [] => []
  | c :: l' =>
      if has_char "/"%char l then c :: directory l' else []
  end.

(** [urljoin(base, url)] for a base with a scheme and a network location:
    both URLs are parsed (and the parse can raise); a reference with a
    scheme or a network location of its own is the result as it stands; a
    reference that starts with [/] replaces the path of the base, any other
    one its last segment.  Left out: dot segments, parameters, and
    references without a path (which keep the path of the base). *)
Definition join (base url : list ascii) : except (list ascii) :=
  match base, url with
  | [], _ => Value url
  | _, [] => Value base
  | _, _ =>
      b ← urlsplit_checked base;
      u ← urlsplit_checked url;
      match p_scheme u, p_netloc u with
      | _ :: _, _ => Value url
      | [], _ :: _ => Value (p_scheme b ++ [":"%char] ++ url)
      | [], [] =>
          let root := p_scheme b ++ [":"; "/"; "/"]%char ++ p_netloc b in
          match url, directory (p_path b) with
          | "/"%char :: _, _ => Value (root ++ url)
          | _, [] => Value (root ++ ["/"%char] ++ url)
          | _, dir => Value (root ++ dir ++ url)
          end
      end
  end.

End UrlModel.

Definition urllib_model : Urllib := {|
  urlparse_netloc u :=
    p ← UrlModel.urlsplit_checked (Py.chars u);
    Value (Py.str (UrlModel.p_netloc p));
  urlparse_path u :=
    p ← UrlModel.urlsplit_checked (Py.chars u);
    Value (Py.str (UrlModel.p_path p));
  urldefrag_url u :=
    d ← UrlModel.defrag_checked (Py.chars u); Value (Py.str d);
  urljoin base u :=
    j ← UrlModel.join (Py.chars base) (Py.chars u); Value (Py.str j);
|}.

(** ** URL utilities (lines 13-29) *)

Section UrlUtilities.
Context {U : Urllib}.

(** [urlparse] is called only when the URL does not end with
    [sitemap.xml]: [or] does not evaluate its second operand otherwise. *)
Definition is_sitemap (url : string) : except bool :=
  if Py.endswith url "sitemap.xml" then Value true
  else path ← urlparse_path url; Value (Py.contains "sitemap" path).

Definition is_txt (url : string) : bool :=
  Py.endswith url ".txt" || Py.endswith url "llms.txt"
  || Py.endswith url "llms-full.txt".

Definition normalize_url (url : string) : except string := urldefrag_url url.

Definition is_internal_link (base_url link_url : string) : except bool :=
  base_domain ← urlparse_netloc base_url;
  link_domain ← urlparse_netloc link_url;
  Value (bool_decide (base_domain = link_domain)).

End UrlUtilities.

(** ** Content utilities (lines 299-320) *)

Module Text.

(** [text.replace(c, '')] for a one-character pattern [c]. *)
Definition remove_char (c : ascii) (text : list ascii) : list ascii :=
  filter (λ d, d ≠ c) text.

(** The patterns of the [for] loop of [create_excerpt], in its order. *)
Definition markdown_patterns : list ascii :=
  ["#"; "*"; "_"; "`"; "["; "]"; "("; ")"; ">"; "|"]%char.

(** [text.split()]: the maximal runs of non-whitespace characters.
    [cur] is the current run, most recent character first. *)
Fixpoint split_go (cur : list ascii) (text : list ascii) : list (list ascii) :=
  match text with
  | [] => match cur with [] => [] | _ => [reverse cur] end
  | c :: text' =>
      if Py.isspace c then
        match cur with
        | [] => split_go [] text'
        | _ => reverse cur :: split_go [] text'
        end
      else split_go (c :: cur) text'
  end.

Definition split (text : list ascii) : list (list ascii) := split_go [] text.

(** [sep.join(words)] *)
Fixpoint join (sep : list ascii) (words : list (list ascii)) : list ascii :=
  match words with
  | [] => []
  | [w] => w
  | w :: words' => w ++ sep ++ join sep words'
  end.

(** [s.rsplit(' ', 1)]: [Some] of what precedes the last space,
    [None] when [s] has no space. *)
Fixpoint before_last_space (s : list ascii) : option (list ascii) :=
  match s with
  | [] => None
  | c :: s' =>
      match before_last_space s' with
      | Some p => Some (c :: p)
      | None => if bool_decide (c = Py.space) then Some [] else None
      end
  end.

(** [s.rsplit(' ', 1)[0]] *)
Definition rsplit_head (s : list ascii) : list ascii :=
  default s (before_last_space s).

Definition ellipsis : list ascii := ["."; "."; "."]%char.

(** Lines 310-315: the text after the markdown characters are removed and
    the whitespace is collapsed. *)
Definition clean (content : list ascii) : list ascii :=
  let text := fold_left (λ text pattern, remove_char pattern text)
                        markdown_patterns content in
  join [Py.space] (split text).

Definition excerpt (content : list ascii) (max_length : Z) : list ascii :=
  let text := clean content in
  if (Z.of_nat (length text) <=? max_length)%Z then text
  else rsplit_head (Py.slice_to text max_length) ++ ellipsis.

(** [s.strip()] *)
Definition strip (s : list ascii) : list ascii :=
  let drop_ws := fix go l :=
    match l with
    | c :: l' => if Py.isspace c then go l' else l
    | [] => []
    end in
  reverse (drop_ws (reverse (drop_ws s))).

(** [content.split('\n')] *)
Fixpoint lines_go (cur : list ascii) (text : list ascii) : list (list ascii) :=
  match text with
  | [] => [reverse cur]
  | c :: text' =>
      if bool_decide (c = Py.newline) then reverse cur :: lines_go [] text'
      else lines_go (c :: cur) text'
  end.

Definition title_of_lines (lines : list (list ascii)) : option (list ascii) :=
  head (omap (λ line,
                match strip line with
                | "#"%char :: " "%char :: rest => Some (strip rest)
                | _ => None
                end) lines).

End Text.

Definition extract_title_from_content (content : string) : string :=
  match Text.title_of_lines (Text.lines_go [] (Py.chars content)) with
  | Some t => Py.str t
  | None => "Untitled Document"
  end.

Definition create_excerpt (content : string) (max_length : Z) : string :=
  Py.str (Text.excerpt (Py.chars content) max_length).

(** The default of the [max_length] argument. *)
Definition default_max_length : Z := 300.

(** ** Data model *)

(** A page record: the dicts appended to [results].  [page_depth] is [None]
    for the records of the single and sitemap modes, which have no
    ['depth'] key. *)
Record PageRecord := {
  page_url : string;
  page_title : string;
  page_content : string;
  page_depth : option Z;
}.

(** The options dict; [None] is an absent key. *)
Record Options := {
  maxDepth : option Z;
  maxPages : option Z;
  followInternalOnly : option bool;
}.

(** The JSON objects printed on standard output while crawling. *)
Inductive event :=
  | ProgressStarting
  | ProgressFetching (currentUrl : string)
  | ErrorCrawl (url error : string)
  | ProgressPage (currentUrl : string) (pagesProcessed totalPages depth : Z)
  | ProgressParsingSitemap
  | ErrorSitemap (error : string)
  | ProgressSitemapUrl (currentUrl : string) (pagesProcessed totalPages : Z).

(** The dict returned by [crawl_single_page]. *)
Inductive page_result :=
  | PageOk (url content title : string) (links : list string)
  | PageFail (url error : string).

Definition result_url (r : page_result) : string :=
  match r with PageOk u _ _ _ => u | PageFail u _ => u end.

(** ** The collaborators: crawl4ai's crawler and the sitemap download

    [Σ] is the state of the outside world the collaborators read and change;
    a fetcher may answer differently each time it is called. *)

(** What [crawl_single_page] reads from the object returned by
    [crawler.arun].  [run_links] holds, in order, the hrefs of the entries
    of [result.links] that lines 96-101 accept (the ['href'] of a dict, or
    a string); [run_html_hrefs] the matches of the pattern of line 107 in
    [result.html] (none without HTML). *)
Record run_result := {
  run_success : bool;
  run_markdown : string;
  run_metadata_title : option string;
  run_links : list string;
  run_html_hrefs : list string;
  run_error : string;
}.

Inductive run_outcome :=
  | Raised (error : string)
  | Returned (r : run_result).

(** What the body of [parse_sitemap] gets: the [loc] texts of a 200
    response, another status, or an exception. *)
Inductive sitemap_outcome :=
  | SitemapLocs (urls : list string)
  | SitemapOtherStatus
  | SitemapRaised (error : string).

Class Crawler (Σ : Type) := {
  arun : Σ → string → Σ * run_outcome;
  sitemap_get : Σ → string → Σ * sitemap_outcome;
}.

(** The URLs handed to [crawl_single_page], read off the output: every call
    prints one [ProgressFetching] event just before it calls the fetcher. *)
Definition fetched (evs : list event) : list string :=
  omap (λ e, match e with ProgressFetching u => Some u | _ => None end) evs.

Section Scraper.
Context {U : Urllib} {Σ : Type} {C : Crawler Σ}.

(** *** parse_sitemap (lines 31-54) *)
Definition parse_sitemap (σ : Σ) (url : string) : Σ * list event * list string :=
  let '(σ', o) := sitemap_get σ url in
  match o with
  | SitemapLocs urls => (σ', [], urls)
  | SitemapOtherStatus => (σ', [], [])
  | SitemapRaised e => (σ', [ErrorSitemap e], [])
  end.

(** *** crawl_single_page (lines 56-132) *)

(** Lines 93-112: the links of a page.  The hrefs of [result.links] are
    resolved against the page URL; when that gives no link, the hrefs of the
    HTML that start with [http] or [/] are.  [urljoin] is called outside the
    [try] of lines 66-79, so what it raises leaves [crawl_single_page]. *)
Definition page_links (url : string) (r : run_result) : except (list string) :=
  links ← map_except (urljoin url) (run_links r);
  match links with
  | [] =>
      map_except (urljoin url)
        (filter (λ m, Py.startswith m "http" || Py.startswith m "/")
                (run_html_hrefs r))
  | _ :: _ => Value links
  end.

Definition crawl_single_page (σ : Σ) (url : string)
  : Σ * list event * except page_result :=
  let '(σ', o) := arun σ url in
  match o with
  | Raised e =>
      (σ', [ProgressFetching url; ErrorCrawl url e], Value (PageFail url e))
  | Returned r =>
      if run_success r then
        let content := run_markdown r in
        let title :=
          match run_metadata_title r with
          | Some t => t
          | None =>
              if bool_decide (content = "") then ""
              else extract_title_from_content content
          end in
        (σ', [ProgressFetching url],
         links ← page_links url r;
         Value (PageOk url content
                       (if bool_decide (title = "") then "Untitled" else title)
                       links))
      else (σ', [ProgressFetching url], Value (PageFail url (run_error r)))
  end.

(** *** crawl_recursive (lines 134-186) *)

(** The local variables of [crawl_recursive] that the loop changes, the
    world, and the output so far.  [pushed] is not a program variable: it
    records every pair appended to [to_visit] by line 184, in order. *)
Record crawl_state := {
  visited : gset string;
  to_visit : list (string * Z);
  results : list PageRecord;
  pages_processed : Z;
  world : Σ;
  emitted : list event;
  pushed : list (string * Z);
}.

Section Loop.
Variables (start_url : string) (max_depth max_pages : Z)
          (follow_internal_only : bool).

(** Lines 178-184: the [for] loop over the links of a page, appending to
    the list [queue]; with the list as it is when the loop ends, the
    exception that ended it, if one did.  [is_internal_link] is called only
    when [follow_internal_only] holds. *)
Fixpoint follow_links (seen : gset string) (depth : Z)
    (links : list string) (queue : list (string * Z))
  : list (string * Z) * option string :=
  match links with
  | [] => (queue, None)
  | link :: links' =>
      match normalize_url link with
      | Raises e => (queue, Some e)
      | Value normalized_link =>
          if bool_decide (normalized_link ∉ seen) then
            if follow_internal_only then
              match is_internal_link start_url normalized_link with
              | Raises e => (queue, Some e)
              | Value true =>
                  follow_links seen depth links'
                    (queue ++ [(normalized_link, (depth + 1)%Z)])
              | Value false => follow_links seen depth links' queue
              end
            else
              follow_links seen depth links'
                (queue ++ [(normalized_link, (depth + 1)%Z)])
          else follow_links seen depth links' queue
      end
  end.

(** Lines 146-184: one iteration of the [while] loop, [(url, depth)]
    being the pair popped from the front and [rest] the remaining queue;
    with the state after it, the exception that ended it, if one did. *)
Definition crawl_iteration (st : crawl_state) (url : string) (depth : Z)
    (rest : list (string * Z)) : crawl_state * option string :=
  if bool_decide (url ∈ visited st) || (max_depth <? depth)%Z then
    ({| visited := visited st; to_visit := rest; results := results st;
        pages_processed := pages_processed st; world := world st;
        emitted := emitted st; pushed := pushed st |}, None)
  else
    let visited' := {[ url ]} ∪ visited st in
    let pages_processed' := (pages_processed st + 1)%Z in
    let progress :=
      ProgressPage url pages_processed'
        (Z.of_nat (length rest) + pages_processed')%Z depth in
    let '(σ', evs, page_result) := crawl_single_page (world st) url in
    let emitted' := emitted st ++ progress :: evs in
    match page_result with
    | Raises e =>
        ({| visited := visited'; to_visit := rest; results := results st;
            pages_processed := pages_processed'; world := σ';
            emitted := emitted'; pushed := pushed st |}, Some e)
    | Value (PageOk u content title links) =>
        let results' :=
          results st ++ [{| page_url := u; page_title := title;
                            page_content := content;
                            page_depth := Some depth |}] in
        if (depth <? max_depth)%Z then
          let '(queue, raised) := follow_links visited' depth links rest in
          ({| visited := visited'; results := results';
              to_visit := queue;
              pages_processed := pages_processed'; world := σ';
              emitted := emitted';
              pushed := fst (follow_links visited' depth links (pushed st)) |},
           raised)
        else
          ({| visited := visited'; to_visit := rest; results := results';
              pages_processed := pages_processed'; world := σ';
              emitted := emitted'; pushed := pushed st |}, None)
    | Value (PageFail _ _) =>
        ({| visited := visited'; to_visit := rest; results := results st;
            pages_processed := pages_processed'; world := σ';
            emitted := emitted'; pushed := pushed st |}, None)
    end.

(** Line 145: the [while] loop.  [fuel] bounds the number of
    iterations; [None] means the bound was reached.  An exception ends the
    loop with the state as it is then. *)
Fixpoint crawl_loop (fuel : nat) (st : crawl_state)
  : option (crawl_state * option string) :=
  match to_visit st with
  | [] => Some (st, None)
  | (url, depth) :: rest =>
      if (pages_processed st <? max_pages)%Z then
        match fuel with
        | O => None
        | S fuel' =>
            match crawl_iteration st url depth rest with
            | (st', None) => crawl_loop fuel' st'
            | (st', Some e) => Some (st', Some e)
            end
        end
      else Some (st, None)
  end.

(** Lines 140-143, [seed] being the value of [normalize_url(start_url)]. *)
Definition crawl_init (seed : string) (σ : Σ) : crawl_state :=
  {| visited := ∅; to_visit := [(seed, 0%Z)];
     results := []; pages_processed := 0; world := σ; emitted := [];
     pushed := [] |}.

End Loop.

(** The state when line 141 raises: nothing fetched, nothing queued. *)
Definition crawl_blank (σ : Σ) : crawl_state :=
  {| visited := ∅; to_visit := []; results := []; pages_processed := 0;
     world := σ; emitted := []; pushed := [] |}.

Definition max_depth_of (options : Options) : Z := default 3%Z (maxDepth options).
Definition max_pages_of (options : Options) : Z := default 50%Z (maxPages options).
Definition follow_internal_only_of (options : Options) : bool :=
  default true (followInternalOnly options).

(** The state in which [crawl_recursive] ends, with the exception that
    ended it, if one did.  When [normalize_url(start_url)] raises at line
    141 nothing has been done yet. *)
Definition crawl_run (fuel : nat) (σ : Σ) (start_url : string)
    (options : Options) : option (crawl_state * option string) :=
  match normalize_url start_url with
  | Raises e => Some (crawl_blank σ, Some e)
  | Value seed =>
      crawl_loop start_url (max_depth_of options) (max_pages_of options)
                 (follow_internal_only_of options) fuel
                 (crawl_init seed σ)
  end.

Definition crawl_recursive (fuel : nat) (σ : Σ) (start_url : string)
    (options : Options)
  : option (Σ * list event * except (list PageRecord)) :=
  '(st, raised) ← crawl_run fuel σ start_url options;
  Some (world st, emitted st,
        match raised with
        | None => Value (results st)
        | Some e => Raises e
        end).

(** *** scrape_url (lines 188-297) *)

Record Metadata := {
  pagesCount : Z;
  mode : string;
  pages : option (list (string * string));
}.

(** The dict returned by [scrape_url]: [{"type": "error", ...}] or
    [{"type": "result", "success": True, ...}]. *)
Inductive Output :=
  | OutError (error : string)
  | OutResult (title content excerpt url : string) (metadata : Metadata).

(** Lines 199-206. *)
Definition resolve_mode (url mode : string) : except string :=
  if bool_decide (mode = "auto") then
    if is_txt url then Value "single"
    else
      sitemap ← is_sitemap url;
      if sitemap : bool then Value "sitemap" else Value "recursive"
  else Value mode.

Definition record_of (r : page_result) : list PageRecord :=
  match r with
  | PageOk u content title _ =>
      [{| page_url := u; page_title := title; page_content := content;
          page_depth := None |}]
  | PageFail _ _ => []
  end.

(** Lines 227-244: the sitemap [for] loop over the enumerated slice, from
    the world, the output and the results so far. *)
Fixpoint sitemap_loop (total : Z) (entries : list (nat * string))
    (σ : Σ) (evs : list event) (results : list PageRecord)
  : Σ * list event * except (list PageRecord) :=
  match entries with
  | [] => (σ, evs, Value results)
  | (i, sitemap_url) :: entries' =>
      let progress :=
        ProgressSitemapUrl sitemap_url (Z.of_nat i + 1)%Z total in
      let '(σ', evs', result) := crawl_single_page σ sitemap_url in
      match result with
      | Raises e => (σ', evs ++ progress :: evs', Raises e)
      | Value result =>
          sitemap_loop total entries' σ' (evs ++ progress :: evs')
                       (results ++ record_of result)
      end
  end.

(** Lines 208-248: the page records of the mode [mode], after [auto] has
    been resolved, or the exception that ended the dispatch. *)
Definition collect_pages (fuel : nat) (σ : Σ) (url mode : string)
    (options : Options)
  : option (Σ * list event * except (list PageRecord)) :=
  if bool_decide (mode = "single") then
    let '(σ', evs, result) := crawl_single_page σ url in
    Some (σ', evs, result ← result; Value (record_of result))
  else if bool_decide (mode = "sitemap") then
    let '(σ', evs, sitemap_urls) := parse_sitemap σ url in
    Some (sitemap_loop (Z.of_nat (length sitemap_urls))
            (imap pair (Py.slice_to sitemap_urls (max_pages_of options)))
            σ' (ProgressParsingSitemap :: evs) [])
  else if bool_decide (mode = "recursive") then
    crawl_recursive fuel σ url options
  else Some (σ, [], Value []).

(** Line 279. *)
Definition page_header (page : PageRecord) : string :=
  Py.str ([Py.newline; Py.newline] ++ Py.chars "## "
          ++ Py.chars (page_title page)
          ++ [Py.newline] ++ Py.chars "*Source: "
          ++ Py.chars (page_url page) ++ Py.chars "*"
          ++ [Py.newline; Py.newline]).

(** Lines 251-294. *)
Definition process_results (url mode : string) (results : list PageRecord)
  : Output :=
  match results with
  | [] => OutError "No content could be extracted from the URL"
  | [page] =>
      OutResult (page_title page) (page_content page)
                (create_excerpt (page_content page) default_max_length) url
                {| pagesCount := 1; mode := mode; pages := None |}
  | first :: _ =>
      let combined_title := page_title first in
      let combined_content :=
        fold_left (λ combined page,
                     combined +:+ (page_header page +:+ page_content page))
                  results "" in
      OutResult combined_title combined_content
                (create_excerpt combined_content default_max_length) url
                {| pagesCount := Z.of_nat (length results); mode := mode;
                   pages := Some (map (λ r, (page_url r, page_title r)) results) |}
  end.

(** Lines 193-297.  An exception raised anywhere in the [try] block is
    turned by lines 296-297 into the error object that carries its
    message; what was printed before it stays printed. *)
Definition scrape_url (fuel : nat) (σ : Σ) (url mode : string)
    (options : Options) : option (Σ * list event * Output) :=
  match resolve_mode url mode with
  | Raises e => Some (σ, [ProgressStarting], OutError e)
  | Value mode =>
      '(σ', evs, results) ← collect_pages fuel σ url mode options;
      Some (σ', ProgressStarting :: evs,
            match results with
            | Value results => process_results url mode results
            | Raises e => OutError e
            end)
  end.

End Scraper.

Global Arguments crawl_state : clear implicits.

(** ** A concrete site

    Two pages on one host that link to each other, a third page without
    links, a fourth whose only link is malformed, and two sitemaps.  The
    world is the list of URLs given to the fetcher so far. *)

Module Site.

Definition A : string := "https://x.test/a".
Definition B : string := "https://x.test/b".
Definition C : string := "https://x.test/c".
Definition D : string := "https://x.test/d".
Definition sitemap : string := "https://x.test/sitemap.xml".
Definition sitemap_d : string := "https://x.test/d/sitemap.xml".

(** A network location that opens a bracket and never closes it. *)
Definition malformed : string := "http://[::1".

Definition page (title : string) (hrefs : list string) : run_outcome :=
  Returned {| run_success := true; run_markdown := "text of " +:+ title;
              run_metadata_title := Some title; run_links := hrefs;
              run_html_hrefs := []; run_error := "" |}.

Definition crawler : Crawler (list string) := {|
  arun σ url :=
    (σ ++ [url],
     if bool_decide (url = A) then page "A" [B]
     else if bool_decide (url = B) then page "B" ["/a"]
     else if bool_decide (url = C) then page "C" []
     else if bool_decide (url = D) then page "D" [malformed]
     else Raised "unreachable");
  sitemap_get σ url :=
    (σ, if bool_decide (url = sitemap) then SitemapLocs [A; B; C]
        else if bool_decide (url = sitemap_d) then SitemapLocs [D; B; C]
        else SitemapOtherStatus);
|}.

Definition options (max_depth max_pages : Z) : Options :=
  {| maxDepth := Some max_depth; maxPages := Some max_pages;
     followInternalOnly := None |}.

Definition record (url title : string) (depth : option Z) : PageRecord :=
  {| page_url := url; page_title := title;
     page_content := "text of " +:+ title; page_depth := depth |}.

End Site.

(** ** Predicates used in the statements *)

(** [s] ends with [suffix]. *)
Definition ends_with (s suffix : string) : Prop := ∃ p, s = p +:+ suffix.

(** Position [n] of [text] is not inside a word: it is an end of the text,
    or one of the characters next to it is whitespace. *)
Definition at_word_boundary (text : list ascii) (n : nat) : bool :=
  match n with
  | O => true
  | S m =>
      match text !! m, text !! n with
      | Some c, Some d => Py.isspace c || Py.isspace d
      | _, _ => true
      end
  end.

(** What one processed page adds to [results] and to the queue, by what
    [crawl_single_page] gave for it: a dict, or an exception. *)
Section PerPage.
Context {U : Urllib}.

Definition records_of_page (depth : Z) (r : except page_result)
  : list PageRecord :=
  match r with
  | Value (PageOk u content title _) =>
      [{| page_url := u; page_title := title; page_content := content;
          page_depth := Some depth |}]
  | _ => []
  end.

Definition discovered (start_url : string) (max_depth : Z)
    (follow_internal_only : bool) (seen : gset string) (depth : Z)
    (r : except page_result) : list (string * Z) :=
  match r with
  | Value (PageOk _ _ _ links) =>
      if (depth <? max_depth)%Z
      then fst (follow_links start_url follow_internal_only seen depth links [])
      else []
  | _ => []
  end.

(** The exception that ends the iteration which processes a page, if one
    does. *)
Definition raised_on_page (start_url : string) (max_depth : Z)
    (follow_internal_only : bool) (seen : gset string) (depth : Z)
    (r : except page_result) : option string :=
  match r with
  | Raises e => Some e
  | Value (PageOk _ _ _ links) =>
      if (depth <? max_depth)%Z
      then snd (follow_links start_url follow_internal_only seen depth links [])
      else None
  | Value (PageFail _ _) => None
  end.

(** [u] is a URL as [normalize_url] returns them. *)
Definition normalized (u : string) : Prop :=
  ∃ link, normalize_url link = Value u.

(** [u] has the network location of [start_url]. *)
Definition same_netloc (start_url u : string) : Prop :=
  ∃ d, urlparse_netloc start_url = Value d ∧ urlparse_netloc u = Value d.

End PerPage.

(** The loop invariants; [seed] is the first entry of the queue. *)
Section Invariants.
Context {U : Urllib} {Σ : Type}.
Variables (start_url seed : string) (max_depth max_pages : Z).

(** Every record is within the depth limit, there are no more records
    than processed pages, and no more processed pages than the budget. *)
Definition within_budget (st : crawl_state Σ) : Prop :=
  Forall (λ p, ∃ d, page_depth p = Some d ∧ (d ≤ max_depth)%Z) (results st)
  ∧ (Z.of_nat (length (results st)) ≤ pages_processed st)%Z
  ∧ (pages_processed st ≤ Z.max 0 max_pages)%Z.

(** The fetched URLs are pairwise distinct normalized URLs, they are the
    members of [visited], and [pages_processed] counts them. *)
Definition fetched_once (st : crawl_state Σ) : Prop :=
  NoDup (fetched (emitted st))
  ∧ (∀ u, u ∈ visited st ↔ u ∈ fetched (emitted st))
  ∧ Forall normalized (fetched (emitted st))
  ∧ Z.of_nat (length (fetched (emitted st))) = pages_processed st
  ∧ Forall (λ p, normalized (fst p)) (to_visit st).

(** Every pair appended so far is on the host of the start URL, and the
    queue is what is left of the seed and the appended pairs. *)
Definition pushed_internal (st : crawl_state Σ) : Prop :=
  Forall (λ p, same_netloc start_url (fst p)) (pushed st)
  ∧ to_visit st `suffix_of` (seed, 0%Z) :: pushed st.

End Invariants.

(** ** Further loop invariants *)

Section MoreInvariants.
Context {U : Urllib} {Σ : Type}.
Variables (seed : string) (max_depth max_pages : Z).

(** The records are records of fetched pages, in the order of the fetches. *)
Definition records_follow_fetches (st : crawl_state Σ) : Prop :=
  (page_url <$> results st) `sublist_of` fetched (emitted st).

(** Every record has a title. *)
Definition records_titled (st : crawl_state Σ) : Prop :=
  Forall (λ p, page_title p ≠ "") (results st).

(** Breadth first: the queue holds the rest of the current level followed by
    the next level, the records so far are no deeper than the current
    level, and the pairs appended have depths from 1 to [max_depth]. *)
Definition breadth_first (st : crawl_state Σ) : Prop :=
  ∃ level : Z,
    (0 ≤ level)%Z
    ∧ Forall (λ p, ∃ d, page_depth p = Some d ∧ (0 ≤ d ≤ level)%Z) (results st)
    ∧ StronglySorted Z.le (omap page_depth (results st))
    ∧ Forall (λ q, (level ≤ snd q ≤ level + 1)%Z) (to_visit st)
    ∧ StronglySorted Z.le (snd <$> to_visit st)
    ∧ Forall (λ q, (1 ≤ snd q ≤ max_depth)%Z) (pushed st).

(** Either there is no record yet, and then the start page is still the
    only entry of the queue or the queue is empty after at most one fetch;
    or the first record is the start page at depth 0. *)
Definition start_page_first (st : crawl_state Σ) : Prop :=
  (results st = []
   ∧ ((to_visit st = [(seed, 0%Z)]
       ∧ fetched (emitted st) = [])
      ∨ (to_visit st = [] ∧ length (fetched (emitted st)) ≤ 1)))
  ∨ (∃ p rest, results st = p :: rest
               ∧ page_url p = seed
               ∧ page_depth p = Some 0%Z).

(** With [max_depth] at most 0 nothing is ever appended: the start page is
    waiting, or was skipped, or was the only page fetched. *)
Definition only_start_page (st : crawl_state Σ) : Prop :=
  pushed st = []
  ∧ ((to_visit st = [(seed, 0%Z)]
      ∧ fetched (emitted st) = [] ∧ pages_processed st = 0%Z
      ∧ visited st = ∅)
     ∨ (to_visit st = [] ∧ fetched (emitted st) = []
        ∧ (max_depth < 0)%Z ∧ (0 < max_pages)%Z)
     ∨ (to_visit st = [] ∧ fetched (emitted st) = [seed]
        ∧ max_depth = 0%Z ∧ (0 < max_pages)%Z)).

End MoreInvariants.

(** The URL and the page number of the [ProgressPage] events. *)
Definition page_progress (evs : list event) : list (string * Z) :=
  omap (λ e, match e with
             | ProgressPage u k _ _ => Some (u, k)
             | _ => None
             end) evs.

(** The page numbers count the fetches from 1. *)
Definition progress_counts_fetches {Σ : Type} (st : crawl_state Σ) : Prop :=
  fst <$> page_progress (emitted st) = fetched (emitted st)
  ∧ snd <$> page_progress (emitted st)
    = (λ k, Z.of_nat k) <$> seq 1 (length (fetched (emitted st)))
  ∧ pages_processed st = Z.of_nat (length (fetched (emitted st))).

(** ** Predicates on text *)

(** The helper of [strip]: [l] without its leading whitespace. *)
Fixpoint drop_ws (l : list ascii) : list ascii :=
  match l with
  | c :: l' => if Py.isspace c then drop_ws l' else l
  | [] => []
  end.

(** [l] neither starts nor ends with whitespace. *)
Definition trimmed (l : list ascii) : Prop :=
  (∀ c, head l = Some c → Py.isspace c = false)
  ∧ (∀ c, last l = Some c → Py.isspace c = false).

(** A word: a non-empty run of characters that are not whitespace. *)
Definition word (w : list ascii) : Prop :=
  w ≠ [] ∧ Forall (λ c, Py.isspace c = false) w.

(** ** extract_code_blocks (lines 322-334)

    [re.findall] with the pattern [```(?:[a-zA-Z]+)?\n(.*?)\n```] and
    [re.DOTALL], written out.  A match starts with three backticks; the
    optional group takes the whole run of ASCII letters that follows (with
    fewer letters the next character would be a letter, not the newline the
    pattern asks for); then comes a newline; the lazy group ends at the
    first place where a newline and three backticks follow.  [findall]
    tries each position from left to right and, after a match, goes on
    where the match ended. *)

Module CodeBlocks.

Definition backtick : ascii := "`"%char.

(** The closing fence, with the newline before it. *)
Definition closing : list ascii := [Py.newline; backtick; backtick; backtick].

(** [(?:[a-zA-Z]+)?]: the text after the run of letters. *)
Fixpoint skip_letters (l : list ascii) : list ascii :=
  match l with
  | c :: l' => if UrlModel.is_alpha c then skip_letters l' else l
  | [] => []
  end.

(** [(.*?)\n```]: the group and the text after the match. *)
Fixpoint lazy_body (l : list ascii) : option (list ascii * list ascii) :=
  if bool_decide (closing `prefix_of` l) then Some ([], drop 4 l)
  else
    match l with
    | [] => None
    | c :: l' =>
        match lazy_body l' with
        | Some (body, rest) => Some (c :: body, rest)
        | None => None
        end
    end.

(** The pattern matched at the start of [l]: group 1 and the length of the
    match. *)
Definition match_block (l : list ascii) : option (list ascii * nat) :=
  match l with
  | "`"%char :: "`"%char :: "`"%char :: after_fence =>
      match skip_letters after_fence with
      | c :: body_start =>
          if bool_decide (c = Py.newline) then
            match lazy_body body_start with
            | Some (body, rest) => Some (body, length l - length rest)
            | None => None
            end
          else None
      | [] => None
      end
  | _ => None
  end.

(** [re.findall]: [skip] is the number of characters still covered by the
    last match. *)
Fixpoint findall_go (skip : nat) (l : list ascii) : list (list ascii) :=
  match l with
  | [] => []
  | _ :: l' =>
      match skip with
      | S n => findall_go n l'
      | O =>
          match match_block l with
          | Some (body, n) => body :: findall_go (n - 1) l'
          | None => findall_go 0 l'
          end
      end
  end.

End CodeBlocks.

Definition extract_code_blocks (content : string) : list string :=
  (λ m, Py.str (Text.strip m)) <$> CodeBlocks.findall_go 0 (Py.chars content).

(** * Properties *)

(** ** The model on concrete inputs *)

Example urlsplit_parts :
  UrlModel.urlsplit (Py.chars "HTTPS://x.test:80/docs/a.txt?v=1#top")
  = {| UrlModel.p_scheme := Py.chars "https";
       UrlModel.p_netloc := Py.chars "x.test:80";
       UrlModel.p_path := Py.chars "/docs/a.txt";
       UrlModel.p_query := Py.chars "v=1";
       UrlModel.p_fragment := Py.chars "top" |}.
Proof. reflexivity. Qed.

Example normalize_url_drops_fragment :
  @normalize_url urllib_model "https://x.test/a?v=1#top"
  = Value "https://x.test/a?v=1".
Proof. reflexivity. Qed.

Example normalize_url_raises :
  @normalize_url urllib_model "http://[::1#top" = Raises "Invalid IPv6 URL".
Proof. reflexivity. Qed.

Example urljoin_relative :
  @urljoin urllib_model "https://x.test/docs/a.html" "b.html"
  = Value "https://x.test/docs/b.html".
Proof. reflexivity. Qed.

Example urljoin_raises :
  @urljoin urllib_model Site.D Site.malformed = Raises "Invalid IPv6 URL".
Proof. reflexivity. Qed.

Example is_sitemap_in_path :
  @is_sitemap urllib_model "https://x.test/docs/sitemap_index" = Value true.
Proof. vm_compute. reflexivity. Qed.

Example resolve_mode_llms_txt :
  @resolve_mode urllib_model "https://x.test/llms.txt" "auto" = Value "single".
Proof. vm_compute. reflexivity. Qed.

Example create_excerpt_truncates :
  create_excerpt "# Hello   *brave* new [world](x)" 13 = "Hello brave...".
Proof. vm_compute. reflexivity. Qed.

Example create_excerpt_short :
  create_excerpt "# Hello   *brave* new [world](x)" 300 = "Hello brave new worldx".
Proof. vm_compute. reflexivity. Qed.

Example extract_title_first_heading :
  extract_title_from_content
    (Py.str (Py.chars "intro" ++ [Py.newline] ++ Py.chars "  # The Title  "
             ++ [Py.newline] ++ Py.chars "## more"))
  = "The Title".
Proof. vm_compute. reflexivity. Qed.

(** ** Strings *)

Lemma chars_str l : Py.chars (Py.str l) = l.
Proof. apply String.list_ascii_of_string_of_list_ascii. Qed.

Lemma str_chars s : Py.str (Py.chars s) = s.
Proof. apply String.string_of_list_ascii_of_string. Qed.

Lemma chars_app s1 s2 : Py.chars (s1 +:+ s2) = Py.chars s1 ++ Py.chars s2.
Proof. induction s1 as [|c s1 IH]; simpl; [done|]. by rewrite <- IH. Qed.

Lemma chars_inj s1 s2 : Py.chars s1 = Py.chars s2 → s1 = s2.
Proof. intros H. by rewrite <- (str_chars s1), H, str_chars. Qed.

Lemma len_str l : Py.len (Py.str l) = Z.of_nat (length l).
Proof. unfold Py.len. by rewrite chars_str. Qed.

Lemma endswith_spec s suffix : Py.endswith s suffix = true ↔ ends_with s suffix.
Proof.
  unfold Py.endswith, ends_with. rewrite bool_decide_eq_true. split.
  - intros [k Hk]. exists (Py.str k). apply chars_inj.
    by rewrite chars_app, chars_str.
  - intros [p ->]. exists (Py.chars p). apply chars_app.
Qed.

Lemma ends_with_app s a b : ends_with s (a +:+ b) → ends_with s b.
Proof.
  intros [p ->]. exists (p +:+ a). apply chars_inj.
  rewrite !chars_app. by rewrite app_assoc.
Qed.

(** ** is_txt *)

Lemma is_txt_endswith_txt url : is_txt url = Py.endswith url ".txt".
Proof.
  unfold is_txt.
  destruct (Py.endswith url ".txt") eqn:Htxt; [done|]. simpl.
  destruct (Py.endswith url "llms.txt") eqn:H1.
  { apply endswith_spec in H1. apply (ends_with_app _ "llms" ".txt") in H1.
    apply endswith_spec in H1. congruence. }
  destruct (Py.endswith url "llms-full.txt") eqn:H2; [|done].
  apply endswith_spec in H2. apply (ends_with_app _ "llms-full" ".txt") in H2.
  apply endswith_spec in H2. congruence.
Qed.

(** C9, as amended: [is_txt] looks at the whole URL string, not at its path
    component.  It answers true exactly when the URL string itself ends
    with [.txt], [llms.txt] or [llms-full.txt], which is exactly when it
    ends with [.txt]. *)
Theorem is_txt_iff_url_suffix (url : string) :
  (is_txt url = true ↔
     ends_with url ".txt" ∨ ends_with url "llms.txt"
     ∨ ends_with url "llms-full.txt")
  ∧ (is_txt url = true ↔ ends_with url ".txt").
Proof.
  assert (is_txt url = true ↔ ends_with url ".txt") as Hiff.
  { rewrite is_txt_endswith_txt. apply endswith_spec. }
  split; [|done]. rewrite Hiff. split; [by left|].
  intros [H|[H|H]]; [done| |].
  - by apply (ends_with_app _ "llms" ".txt").
  - by apply (ends_with_app _ "llms-full" ".txt").
Qed.

(** C9, as stated, fails: the path of this URL ends with [.txt], the URL
    does not, and [is_txt] answers false. *)
Lemma is_txt_path_suffix_cex :
  ∃ path,
    @urlparse_path urllib_model "https://x.test/a.txt?v=1" = Value path
    ∧ ¬ (is_txt "https://x.test/a.txt?v=1" = true ↔
           ends_with path ".txt" ∨ ends_with path "llms.txt"
           ∨ ends_with path "llms-full.txt").
Proof.
  exists "/a.txt". split; [reflexivity|]. intros [_ H].
  assert (is_txt "https://x.test/a.txt?v=1" = true) as Hc; [|by vm_compute in Hc].
  apply H. left. by exists "/a".
Qed.

(** ** create_excerpt *)

Lemma length_slice_to {A} (l : list A) (k : Z) :
  (0 ≤ k)%Z → (Z.of_nat (length (Py.slice_to l k)) ≤ k)%Z.
Proof.
  intros Hk. unfold Py.slice_to.
  destruct (Z.leb_spec 0 k); [|lia]. rewrite length_take. lia.
Qed.

Lemma slice_to_nonneg {A} (l : list A) (k : Z) :
  (0 ≤ k)%Z → Py.slice_to l k = take (Z.to_nat k) l.
Proof. intros Hk. unfold Py.slice_to. by destruct (Z.leb_spec 0 k); [|lia]. Qed.

Lemma before_last_space_None s :
  Text.before_last_space s = None → Py.space ∉ s.
Proof.
  induction s as [|c s IH]; simpl; [intros _; apply not_elem_of_nil|].
  destruct (Text.before_last_space s); [done|].
  destruct (bool_decide_reflect (c = Py.space)); [done|].
  intros _. rewrite not_elem_of_cons. auto.
Qed.

Lemma before_last_space_Some s p :
  Text.before_last_space s = Some p →
  ∃ r, s = p ++ Py.space :: r ∧ Py.space ∉ r.
Proof.
  revert p. induction s as [|c s IH]; intros p; simpl; [done|].
  destruct (Text.before_last_space s) as [q|] eqn:Hq.
  - intros [= <-]. destruct (IH q eq_refl) as (r & -> & Hr). by exists r.
  - destruct (bool_decide_reflect (c = Py.space)) as [->|]; [|done].
    intros [= <-]. exists s. split; [done|]. by apply before_last_space_None.
Qed.

Lemma length_rsplit_head s : length (Text.rsplit_head s) ≤ length s.
Proof.
  unfold Text.rsplit_head.
  destruct (Text.before_last_space s) as [p|] eqn:Hp; simpl; [|done].
  apply before_last_space_Some in Hp as (r & -> & _).
  rewrite length_app. lia.
Qed.

Lemma at_word_boundary_before_space body rest :
  at_word_boundary (body ++ Py.space :: rest) (length body) = true.
Proof.
  unfold at_word_boundary. destruct (length body) as [|m] eqn:Hlen; [done|].
  rewrite <- Hlen, (list_lookup_middle body rest Py.space (length body) eq_refl).
  destruct ((body ++ _) !! m); [|done]. apply orb_true_r.
Qed.

(** C8, as amended: for a non-negative [max_length] the excerpt has at most
    [max_length + 3] characters; and when the text is truncated and its
    first [max_length] characters contain a space, the excerpt backs off to
    the last word boundary: it is the cleaned text up to the last space
    among its first [max_length] characters (which it leaves out), followed
    by the ellipsis, so it does not stop inside a word. *)
Theorem create_excerpt_bounded (content : string) (max_length : Z) :
  (0 ≤ max_length)%Z →
  (Py.len (create_excerpt content max_length) ≤ max_length + 3)%Z
  ∧ ((max_length < Z.of_nat (length (Text.clean (Py.chars content))))%Z →
     Py.space ∈ take (Z.to_nat max_length) (Text.clean (Py.chars content)) →
     ∃ body tail rest,
       create_excerpt content max_length = Py.str (body ++ Text.ellipsis)
       ∧ take (Z.to_nat max_length) (Text.clean (Py.chars content))
         = body ++ Py.space :: tail
       ∧ (Py.space ∉ tail)
       ∧ Text.clean (Py.chars content) = body ++ Py.space :: rest
       ∧ at_word_boundary (Text.clean (Py.chars content)) (length body) = true).
Proof.
  intros Hk. unfold create_excerpt, Text.excerpt.
  set (text := Text.clean (Py.chars content)). split.
  - rewrite len_str. destruct (Z.leb_spec (Z.of_nat (length text)) max_length); [lia|].
    rewrite length_app. simpl.
    pose proof (length_rsplit_head (Py.slice_to text max_length)).
    pose proof (length_slice_to text max_length Hk). lia.
  - intros Hlong Hsp.
    destruct (Z.leb_spec (Z.of_nat (length text)) max_length); [lia|].
    rewrite slice_to_nonneg by done. unfold Text.rsplit_head.
    destruct (Text.before_last_space (take (Z.to_nat max_length) text))
      as [body|] eqn:Hbody.
    + apply before_last_space_Some in Hbody as (r & Hr & Hlast).
      exists body, r, (r ++ drop (Z.to_nat max_length) text).
      assert (text = body ++ Py.space :: r ++ drop (Z.to_nat max_length) text) as Htext.
      { rewrite <- (take_drop (Z.to_nat max_length) text) at 1.
        rewrite Hr. by rewrite <- app_assoc. }
      split; [done|]. split; [done|]. split; [done|]. split; [done|].
      rewrite Htext at 1. apply at_word_boundary_before_space.
    + by apply before_last_space_None in Hbody.
Qed.

Lemma create_excerpt_bounded_witness :
  (Py.len (create_excerpt "# Hello   *brave* new [world](x)" 13) ≤ 13 + 3)%Z
  ∧ ∃ body tail rest,
      create_excerpt "# Hello   *brave* new [world](x)" 13
        = Py.str (body ++ Text.ellipsis)
      ∧ take (Z.to_nat 13) (Text.clean (Py.chars "# Hello   *brave* new [world](x)"))
        = body ++ Py.space :: tail
      ∧ (Py.space ∉ tail)
      ∧ Text.clean (Py.chars "# Hello   *brave* new [world](x)")
        = body ++ Py.space :: rest
      ∧ at_word_boundary (Text.clean (Py.chars "# Hello   *brave* new [world](x)"))
                         (length body) = true.
Proof.
  destruct (create_excerpt_bounded "# Hello   *brave* new [world](x)" 13)
    as [Hlen Hcut]; [lia|].
  split; [exact Hlen|]. apply Hcut.
  - vm_compute. reflexivity.
  - vm_compute. do 5 apply list_elem_of_further. apply list_elem_of_here.
Defined.

(** C8, as stated, fails twice.  A first word longer than [max_length] is
    cut in the middle: the excerpt of [abcdefghij] for 5 is [abcde...], and
    position 5 of the cleaned text lies inside its only word.  And for a
    negative [max_length] the slice drops characters from the end instead,
    so the excerpt of [abcdefgh] for -1 has 10 characters. *)
Lemma create_excerpt_cex :
  (create_excerpt "abcdefghij" 5 = "abcde..."
   ∧ Text.clean (Py.chars "abcdefghij") = Py.chars "abcdefghij"
   ∧ (5 < Py.len "abcdefghij")%Z
   ∧ at_word_boundary (Text.clean (Py.chars "abcdefghij")) 5 = false)
  ∧ ¬ (Py.len (create_excerpt "abcdefgh" (-1)) ≤ -1 + 3)%Z.
Proof. vm_compute. repeat split; congruence. Qed.

(** ** The crawl loop *)

Section CrawlProperties.
Context {U : Urllib} {Σ : Type} {C : Crawler Σ}.
Variables (start_url : string) (max_depth max_pages : Z)
          (follow_internal_only : bool).

Local Abbreviation iteration :=
  (λ st url depth rest,
     fst (crawl_iteration start_url max_depth follow_internal_only
                          st url depth rest)).
Local Abbreviation loop :=
  (crawl_loop start_url max_depth max_pages follow_internal_only).
Local Abbreviation follow := (follow_links start_url follow_internal_only).

Lemma crawl_single_page_fetched σ url σ' evs r :
  crawl_single_page σ url = (σ', evs, r) → fetched evs = [url].
Proof.
  unfold crawl_single_page. destruct (arun σ url) as [σ1 [e|run]].
  - by intros [= <- <- <-].
  - destruct (run_success run); by intros [= <- <- <-].
Qed.

Lemma crawl_single_page_returns_url σ url σ' evs r :
  crawl_single_page σ url = (σ', evs, Value r) → result_url r = url.
Proof.
  unfold crawl_single_page. destruct (arun σ url) as [σ1 [e|run]].
  - by intros [= <- <- <-].
  - destruct (run_success run); [|by intros [= <- <- <-]].
    destruct (page_links url run); simpl; [|done]. by intros [= <- <- <-].
Qed.

Lemma follow_links_app seen depth links queue :
  follow seen depth links queue
  = (queue ++ fst (follow seen depth links []),
     snd (follow seen depth links [])).
Proof.
  revert queue.
  induction links as [|link links IH]; intros queue; simpl.
  { by rewrite app_nil_r. }
  destruct (normalize_url link) as [n|e]; simpl; [|by rewrite app_nil_r].
  destruct (bool_decide (n ∉ seen)); [|done].
  destruct follow_internal_only.
  - destruct (is_internal_link start_url n) as [[]|e]; simpl;
      [|done|by rewrite app_nil_r].
    rewrite IH, (IH [_]). simpl. by rewrite <- app_assoc.
  - rewrite IH, (IH [_]). simpl. by rewrite <- app_assoc.
Qed.

Lemma is_internal_link_true base link :
  is_internal_link base link = Value true → same_netloc base link.
Proof.
  unfold is_internal_link, same_netloc.
  destruct (urlparse_netloc base) as [b|]; simpl; [|done].
  destruct (urlparse_netloc link) as [l|]; simpl; [|done].
  intros [= ->%bool_decide_eq_true]. by exists l.
Qed.

(** Every pair the [for] loop appends is a normalized link that is not
    visited yet, one level deeper, and internal when the filter is on. *)
Lemma follow_links_new seen depth links :
  Forall (λ p, normalized (fst p) ∧ (fst p ∉ seen) ∧ (snd p = depth + 1)%Z
               ∧ (follow_internal_only = true →
                  same_netloc start_url (fst p)))
         (fst (follow seen depth links [])).
Proof.
  induction links as [|link links IH]; [by constructor|]. simpl.
  destruct (normalize_url link) as [n|e] eqn:Hn; simpl; [|by constructor].
  assert (n ∉ seen →
          (follow_internal_only = true → same_netloc start_url n) →
          Forall (λ p, normalized (fst p) ∧ (fst p ∉ seen)
                       ∧ (snd p = depth + 1)%Z
                       ∧ (follow_internal_only = true →
                          same_netloc start_url (fst p)))
                 (fst (follow seen depth links [(n, (depth + 1)%Z)])))
    as Hpush.
  { intros Hseen Hint. rewrite follow_links_app. simpl.
    constructor; [|done]. simpl. split; [by eexists|]. done. }
  destruct (bool_decide_reflect (n ∉ seen)) as [Hseen|]; [|done].
  destruct follow_internal_only eqn:Hfollow.
  - destruct (is_internal_link start_url n) as [[]|e] eqn:Hint; simpl;
      [|done|by constructor].
    apply Hpush; [done..|]. intros _. by apply is_internal_link_true.
  - apply Hpush; done.
Qed.

(** The two ways through one iteration. *)
Lemma crawl_iteration_skip st url depth rest :
  url ∈ visited st ∨ (max_depth < depth)%Z →
  crawl_iteration start_url max_depth follow_internal_only st url depth rest =
    ({| visited := visited st; to_visit := rest; results := results st;
        pages_processed := pages_processed st; world := world st;
        emitted := emitted st; pushed := pushed st |}, None).
Proof.
  intros H. unfold crawl_iteration.
  destruct (bool_decide_reflect (url ∈ visited st)); [done|]. simpl.
  destruct (Z.ltb_spec max_depth depth); [done|]. destruct H; [done|lia].
Qed.

Lemma crawl_iteration_process st url depth rest :
  url ∉ visited st → (depth ≤ max_depth)%Z →
  ∃ σ' evs r,
    crawl_single_page (world st) url = (σ', evs, r)
    ∧ crawl_iteration start_url max_depth follow_internal_only
                      st url depth rest =
        let seen := {[ url ]} ∪ visited st in
        let new := discovered start_url max_depth follow_internal_only
                              seen depth r in
        ({| visited := seen; to_visit := rest ++ new;
            results := results st ++ records_of_page depth r;
            pages_processed := (pages_processed st + 1)%Z; world := σ';
            emitted := emitted st
              ++ ProgressPage url (pages_processed st + 1)
                   (Z.of_nat (length rest) + (pages_processed st + 1)) depth
              :: evs;
            pushed := pushed st ++ new |},
         raised_on_page start_url max_depth follow_internal_only
                        seen depth r).
Proof.
  intros Hnew Hdepth. unfold crawl_iteration.
  destruct (bool_decide_reflect (url ∈ visited st)); [done|]. simpl.
  destruct (Z.ltb_spec max_depth depth); [lia|].
  destruct (crawl_single_page (world st) url) as [[σ' evs] r].
  exists σ', evs, r. split; [done|].
  destruct r as [[u content title links|u e]|e]; simpl.
  - destruct (depth <? max_depth)%Z.
    + by rewrite (follow_links_app _ _ _ rest),
                 (follow_links_app _ _ _ (pushed st)).
    + by rewrite !app_nil_r.
  - by rewrite !app_nil_r.
  - by rewrite !app_nil_r.
Qed.

Lemma crawl_iteration_cases (P : crawl_state Σ * option string → Prop)
    st url depth rest :
  (url ∈ visited st ∨ (max_depth < depth)%Z →
   P (crawl_iteration start_url max_depth follow_internal_only
                      st url depth rest)) →
  (url ∉ visited st → (depth ≤ max_depth)%Z →
   P (crawl_iteration start_url max_depth follow_internal_only
                      st url depth rest)) →
  P (crawl_iteration start_url max_depth follow_internal_only
                     st url depth rest).
Proof.
  intros Hskip Hproc.
  destruct (decide (url ∈ visited st)); [by apply Hskip; left|].
  destruct (Z.lt_ge_cases max_depth depth); [by apply Hskip; right|].
  by apply Hproc.
Qed.

(** A property that every iteration keeps holds when the loop ends,
    also when an exception ends it. *)
Lemma crawl_loop_invariant (I : crawl_state Σ → Prop) :
  (∀ st url depth rest,
     to_visit st = (url, depth) :: rest →
     (pages_processed st < max_pages)%Z →
     I st → I (iteration st url depth rest)) →
  ∀ fuel st st' raised, I st → loop fuel st = Some (st', raised) → I st'.
Proof.
  intros Hstep fuel.
  induction fuel as [|fuel IH]; intros st st' raised HI Hrun; simpl in Hrun;
    destruct (to_visit st) as [|[url depth] rest] eqn:Hq.
  - by injection Hrun as <- <-.
  - destruct (pages_processed st <? max_pages)%Z; [done|].
    by injection Hrun as <- <-.
  - by injection Hrun as <- <-.
  - destruct (Z.ltb_spec (pages_processed st) max_pages).
    + specialize (Hstep st url depth rest Hq H HI). cbv beta in Hstep.
      destruct (crawl_iteration _ _ _ st url depth rest) as [st1 [e|]];
        simpl in Hstep.
      * by injection Hrun as <- <-.
      * by apply IH in Hrun.
    + by injection Hrun as <- <-.
Qed.

Lemma crawl_loop_more_fuel fuel fuel' st res :
  loop fuel st = Some res → fuel ≤ fuel' → loop fuel' st = Some res.
Proof.
  revert fuel' st. induction fuel as [|fuel IH]; intros fuel' st; simpl.
  - destruct fuel'; simpl; [done|].
    destruct (to_visit st) as [|[url depth] rest]; [done|].
    by destruct (pages_processed st <? max_pages)%Z.
  - intros Hrun Hle. destruct fuel' as [|fuel']; [lia|]. simpl.
    destruct (to_visit st) as [|[url depth] rest]; [done|].
    destruct (pages_processed st <? max_pages)%Z; [|done].
    destruct (crawl_iteration _ _ _ st url depth rest) as [st1 [e|]];
      [done|].
    apply IH; [done|lia].
Qed.

(** The loop ends: an iteration either shortens the queue and leaves the
    page count alone, or adds one to the page count, which stays below
    [max_pages], or raises. *)
Lemma crawl_loop_terminates st : ∃ fuel res, loop fuel st = Some res.
Proof.
  remember (Z.to_nat (max_pages - pages_processed st)) as n eqn:Hn.
  assert (Z.to_nat (max_pages - pages_processed st) ≤ n) as Hle by lia.
  clear Hn. revert st Hle.
  induction n as [n IHn] using lt_wf_ind. intros st.
  remember (to_visit st) as q eqn:Hq. revert st Hq.
  induction q as [|[url depth] rest IHq]; intros st Hq Hle.
  { exists 0, (st, None). simpl. by rewrite <- Hq. }
  destruct (Z.ltb_spec (pages_processed st) max_pages) as [Hlt|Hge]; cycle 1.
  { exists 0, (st, None). simpl. rewrite <- Hq.
    by destruct (Z.ltb_spec (pages_processed st) max_pages); [lia|]. }
  assert (∃ fuel res,
            match crawl_iteration start_url max_depth follow_internal_only
                                  st url depth rest with
            | (st', None) => loop fuel st'
            | (st', Some e) => Some (st', Some e)
            end = Some res)
    as (fuel & res & Hrun).
  { apply crawl_iteration_cases.
    - intros Hskip. rewrite crawl_iteration_skip by done. by apply IHq.
    - intros Hnew Hdepth.
      destruct (crawl_iteration_process st url depth rest Hnew Hdepth)
        as (σ' & evs & r & _ & ->). cbv zeta.
      destruct (raised_on_page _ _ _ _ _ _) as [e|].
      { exists 0. by eexists. }
      apply (IHn (Z.to_nat (max_pages - (pages_processed st + 1)))); simpl; lia. }
  exists (S fuel), res. simpl. rewrite <- Hq.
  by destruct (Z.ltb_spec (pages_processed st) max_pages); [|lia].
Qed.

Lemma discovered_new seen depth r :
  Forall (λ p, normalized (fst p) ∧ (fst p ∉ seen) ∧ (snd p = depth + 1)%Z
               ∧ (follow_internal_only = true →
                  same_netloc start_url (fst p)))
         (discovered start_url max_depth follow_internal_only seen depth r).
Proof.
  destruct r as [[u content title links|u e]|e]; simpl; [|by constructor..].
  destruct (depth <? max_depth)%Z; [|by constructor].
  apply follow_links_new.
Qed.

Lemma length_records_of_page depth r : length (records_of_page depth r) ≤ 1.
Proof. destruct r as [[]|]; simpl; lia. Qed.

Lemma records_of_page_depth depth r :
  Forall (λ p, page_depth p = Some depth) (records_of_page depth r).
Proof. destruct r as [[]|]; repeat constructor. Qed.

Lemma fetched_app evs1 evs2 : fetched (evs1 ++ evs2) = fetched evs1 ++ fetched evs2.
Proof. apply omap_app. Qed.

(** *** Depth and page budget *)

Lemma within_budget_iteration st url depth rest :
  to_visit st = (url, depth) :: rest →
  (pages_processed st < max_pages)%Z →
  within_budget max_depth max_pages st →
  within_budget max_depth max_pages (iteration st url depth rest).
Proof.
  intros _ Hlt (Hdepth & Hlen & Hpp). apply crawl_iteration_cases.
  - intros Hskip. by rewrite crawl_iteration_skip.
  - intros Hnew Hd.
    destruct (crawl_iteration_process st url depth rest Hnew Hd)
      as (σ' & evs & r & _ & ->).
    unfold within_budget. simpl. split; [|split].
    + apply Forall_app. split; [done|].
      eapply Forall_impl; [apply records_of_page_depth|]. simpl. eauto.
    + rewrite length_app. pose proof (length_records_of_page depth r). lia.
    + lia.
Qed.

(** *** At most one fetch per URL *)

Lemma fetched_once_iteration st url depth rest :
  to_visit st = (url, depth) :: rest →
  (pages_processed st < max_pages)%Z →
  fetched_once st → fetched_once (iteration st url depth rest).
Proof.
  intros Hq _ (Hnodup & Hvis & Hnorm & Hcount & Hqueue).
  rewrite Hq in Hqueue. apply Forall_cons in Hqueue as [Hurl Hrest].
  apply crawl_iteration_cases.
  - intros Hskip. by rewrite crawl_iteration_skip.
  - intros Hnew Hd.
    destruct (crawl_iteration_process st url depth rest Hnew Hd)
      as (σ' & evs & r & Hpage & ->).
    apply crawl_single_page_fetched in Hpage as Hevs.
    unfold fetched_once. simpl.
    rewrite fetched_app. simpl. rewrite Hevs.
    split; [|split; [|split; [|split]]].
    + apply NoDup_app. split; [done|]. split; [|apply NoDup_singleton].
      intros u Hu ->%list_elem_of_singleton. by apply Hnew, Hvis.
    + intros u. rewrite elem_of_union, elem_of_singleton, elem_of_app,
                        list_elem_of_singleton, Hvis. tauto.
    + apply Forall_app. split; [done|]. by constructor.
    + rewrite length_app. simpl. lia.
    + apply Forall_app. split; [done|].
      eapply Forall_impl; [apply discovered_new|]. simpl. tauto.
Qed.

(** *** Internal links only *)

Lemma pushed_internal_iteration seed st url depth rest :
  follow_internal_only = true →
  to_visit st = (url, depth) :: rest →
  (pages_processed st < max_pages)%Z →
  pushed_internal start_url seed st →
  pushed_internal start_url seed (iteration st url depth rest).
Proof.
  intros Hfollow Hq _ [Hint [popped Hsuffix]]. rewrite Hq in Hsuffix.
  apply crawl_iteration_cases.
  - intros Hskip. rewrite crawl_iteration_skip by done.
    split; [done|]. simpl. exists (popped ++ [(url, depth)]).
    by rewrite <- app_assoc.
  - intros Hnew Hd.
    destruct (crawl_iteration_process st url depth rest Hnew Hd)
      as (σ' & evs & r & _ & ->).
    split; simpl.
    + apply Forall_app. split; [done|].
      eapply Forall_impl; [apply discovered_new|]. simpl. tauto.
    + exists (popped ++ [(url, depth)]).
      rewrite app_comm_cons, Hsuffix, <- !app_assoc. done.
Qed.

End CrawlProperties.

(** ** crawl_recursive *)

Section CrawlRecursive.
Context {U : Urllib} {Σ : Type} {C : Crawler Σ}.

Lemma crawl_run_seeded fuel σ start_url options seed :
  normalize_url start_url = Value seed →
  crawl_run fuel σ start_url options
  = crawl_loop start_url (max_depth_of options) (max_pages_of options)
               (follow_internal_only_of options) fuel (crawl_init seed σ).
Proof. intros H. unfold crawl_run. by rewrite H. Qed.

Lemma crawl_run_raises fuel σ start_url options e :
  normalize_url start_url = Raises e →
  crawl_run fuel σ start_url options = Some (crawl_blank σ, Some e).
Proof. intros H. unfold crawl_run. by rewrite H. Qed.

(** A property of the state before the loop (with the start URL queued, or
    blank when line 141 raises) that every iteration keeps holds when
    [crawl_recursive] ends. *)
Lemma crawl_run_invariant (I : crawl_state Σ → Prop) fuel σ start_url options
    st raised :
  (∀ seed, normalize_url start_url = Value seed → I (crawl_init seed σ)) →
  I (crawl_blank σ) →
  (∀ st url depth rest,
     to_visit st = (url, depth) :: rest →
     (pages_processed st < max_pages_of options)%Z →
     I st →
     I (fst (crawl_iteration start_url (max_depth_of options)
                             (follow_internal_only_of options)
                             st url depth rest))) →
  crawl_run fuel σ start_url options = Some (st, raised) → I st.
Proof.
  intros Hinit Hblank Hstep. unfold crawl_run.
  destruct (normalize_url start_url) as [seed|e].
  - intros Hrun. eapply crawl_loop_invariant in Hrun; [done..|]. by apply Hinit.
  - by intros [= <- <-].
Qed.

Lemma crawl_recursive_more_fuel fuel fuel' σ start_url options res :
  crawl_recursive fuel σ start_url options = Some res → fuel ≤ fuel' →
  crawl_recursive fuel' σ start_url options = Some res.
Proof.
  unfold crawl_recursive, crawl_run. intros Hrun Hle.
  destruct (normalize_url start_url) as [seed|e]; [|done].
  destruct (crawl_loop _ _ _ _ fuel _) as [st|] eqn:Hloop; [|done].
  by rewrite (crawl_loop_more_fuel _ _ _ _ _ _ _ _ Hloop Hle).
Qed.

Lemma crawl_recursive_returns σ start_url options :
  ∃ fuel res, ∀ fuel', fuel ≤ fuel' →
    crawl_recursive fuel' σ start_url options = Some res.
Proof.
  destruct (normalize_url start_url) as [seed|e] eqn:Hseed.
  - destruct (crawl_loop_terminates start_url (max_depth_of options)
                (max_pages_of options) (follow_internal_only_of options)
                (crawl_init seed σ)) as (fuel & [st raised] & Hrun).
    exists fuel. eexists. intros fuel' Hle.
    apply (crawl_recursive_more_fuel fuel); [|done].
    unfold crawl_recursive. rewrite (crawl_run_seeded _ _ _ _ seed) by done.
    rewrite Hrun. simpl. reflexivity.
  - exists 0. eexists. intros fuel' _.
    unfold crawl_recursive. rewrite (crawl_run_raises _ _ _ _ e) by done.
    simpl. reflexivity.
Qed.

End CrawlRecursive.

(** C1, as amended: every page record of a recursive crawl has a depth of at
    most [maxDepth], and the number of records is at most [maxPages] when
    [maxPages] is not negative (for a negative [maxPages] there are none):
    it is at most [max 0 maxPages]. *)
Theorem crawl_recursive_within_budget `{U : Urllib} `{C : Crawler Σ}
    (fuel : nat) (σ : Σ) (start_url : string) (options : Options)
    (σ' : Σ) (evs : list event) (pages : list PageRecord) :
  crawl_recursive fuel σ start_url options = Some (σ', evs, Value pages) →
  Forall (λ p, ∃ d, page_depth p = Some d ∧ (d ≤ max_depth_of options)%Z) pages
  ∧ (Z.of_nat (length pages) ≤ Z.max 0 (max_pages_of options))%Z.
Proof.
  unfold crawl_recursive.
  destruct (crawl_run fuel σ start_url options) as [[st [e|]]|] eqn:Hrun;
    [done| |done].
  intros [= <- <- <-].
  apply (crawl_run_invariant
           (within_budget (max_depth_of options) (max_pages_of options)))
    in Hrun as (Hdepth & Hlen & Hpp).
  - split; [done|]. lia.
  - intros seed _. unfold within_budget. simpl. split; [by constructor|]. lia.
  - unfold within_budget. simpl. split; [by constructor|]. lia.
  - apply within_budget_iteration.
Qed.

Lemma crawl_recursive_within_budget_witness :
  ∃ σ' evs pages,
    @crawl_recursive urllib_model _ Site.crawler 2 [] Site.A (Site.options 5 10)
      = Some (σ', evs, Value pages)
    ∧ Forall (λ p, ∃ d, page_depth p = Some d
                        ∧ (d ≤ max_depth_of (Site.options 5 10))%Z) pages
    ∧ (Z.of_nat (length pages) ≤ Z.max 0 (max_pages_of (Site.options 5 10)))%Z.
Proof.
  do 3 eexists. split; [vm_compute; reflexivity|].
  eapply (@crawl_recursive_within_budget urllib_model _ Site.crawler
            2 [] Site.A (Site.options 5 10)).
  vm_compute. reflexivity.
Defined.

(** C1, as stated, fails for a negative page budget: the crawl returns no
    record, and 0 is not at most -1. *)
Lemma crawl_recursive_negative_budget_cex :
  ∃ σ' evs pages,
    @crawl_recursive urllib_model _ Site.crawler 0 [] Site.A (Site.options 5 (-1))
      = Some (σ', evs, Value pages)
    ∧ ¬ (Z.of_nat (length pages) ≤ max_pages_of (Site.options 5 (-1)))%Z.
Proof. exists [], [], []. split; [reflexivity|]. vm_compute. congruence. Qed.

(** C2: in one recursive crawl no URL is given to [crawl_single_page] twice,
    whether the crawl returns or an exception ends it.  The fetched URLs
    are pairwise distinct normalized URLs; a URL is in [visited] exactly
    when it has been fetched, that is, it is added when it is taken off the
    queue for processing and never when it is only found as a link; and
    [pages_processed] counts the fetches. *)
Theorem crawl_fetches_each_url_once `{U : Urllib} `{C : Crawler Σ}
    (fuel : nat) (σ : Σ) (start_url : string) (options : Options)
    (st : crawl_state Σ) (raised : option string) :
  crawl_run fuel σ start_url options = Some (st, raised) →
  NoDup (fetched (emitted st))
  ∧ (∀ u, u ∈ visited st ↔ u ∈ fetched (emitted st))
  ∧ Forall normalized (fetched (emitted st))
  ∧ Z.of_nat (length (fetched (emitted st))) = pages_processed st.
Proof.
  intros Hrun.
  assert (∀ q, Forall (λ p, normalized (fst p)) q →
            fetched_once {| visited := ∅; to_visit := q; results := [];
                            pages_processed := 0; world := σ; emitted := [];
                            pushed := [] |}) as Hinit.
  { intros q Hq. unfold fetched_once. simpl. split; [apply NoDup_nil_2|].
    split; [intros u; split; [set_solver|by intros ?%elem_of_nil]|].
    split; [by constructor|]. by split. }
  apply (crawl_run_invariant fetched_once) in Hrun
    as (Hnodup & Hvis & Hnorm & Hcount & _); [done| | |].
  - intros seed Hseed. apply Hinit.
    constructor; [by eexists|by constructor].
  - apply Hinit. by constructor.
  - intros. by eapply fetched_once_iteration.
Qed.

Lemma crawl_fetches_each_url_once_witness :
  ∃ st,
    @crawl_run urllib_model _ Site.crawler 2 [] Site.A (Site.options 5 10)
      = Some (st, None)
    ∧ fetched (emitted st) = [Site.A; Site.B]
    ∧ NoDup (fetched (emitted st))
    ∧ (∀ u, u ∈ visited st ↔ u ∈ fetched (emitted st))
    ∧ Forall (@normalized urllib_model) (fetched (emitted st))
    ∧ Z.of_nat (length (fetched (emitted st))) = pages_processed st.
Proof.
  eexists. split; [vm_compute; reflexivity|]. split; [reflexivity|].
  apply (@crawl_fetches_each_url_once urllib_model _ Site.crawler
           2 [] Site.A (Site.options 5 10) _ None).
  vm_compute. reflexivity.
Defined.

(** C4: in a recursive crawl with [followInternalOnly] true (or absent,
    which defaults to true), every pair appended to the queue after the seed
    has the network location of the start URL: [urlparse] gives both the
    same [netloc].  [pushed] lists those pairs; the final queue is what is
    left of the seed, the value of [normalize_url(start_url)], followed by
    them.  This holds also in the state an exception leaves. *)
Theorem crawl_pushes_internal_links `{U : Urllib} `{C : Crawler Σ}
    (fuel : nat) (σ : Σ) (start_url : string) (options : Options)
    (st : crawl_state Σ) (raised : option string) :
  follow_internal_only_of options = true →
  crawl_run fuel σ start_url options = Some (st, raised) →
  Forall (λ p, ∃ d, urlparse_netloc start_url = Value d
                    ∧ urlparse_netloc (fst p) = Value d) (pushed st)
  ∧ (∀ seed, normalize_url start_url = Value seed →
       to_visit st `suffix_of` (seed, 0%Z) :: pushed st).
Proof.
  intros Hfollow Hrun.
  destruct (normalize_url start_url) as [seed|e] eqn:Hseed.
  - rewrite (crawl_run_seeded _ _ _ _ seed) in Hrun by done.
    eapply (crawl_loop_invariant _ _ _ _ (pushed_internal start_url seed))
      in Hrun as [Hint Hsuffix].
    + split; [done|]. by intros ? [= <-].
    + intros. by eapply pushed_internal_iteration.
    + split; simpl; [by constructor|done].
  - rewrite (crawl_run_raises _ _ _ _ e) in Hrun by done.
    injection Hrun as <- <-. simpl. split; [by constructor|done].
Qed.

Lemma crawl_pushes_internal_links_witness :
  ∃ st,
    @crawl_run urllib_model _ Site.crawler 2 [] Site.A (Site.options 5 10)
      = Some (st, None)
    ∧ pushed st = [(Site.B, 1%Z)]
    ∧ @normalize_url urllib_model Site.A = Value Site.A
    ∧ Forall (λ p, ∃ d, @urlparse_netloc urllib_model Site.A = Value d
                        ∧ @urlparse_netloc urllib_model (fst p) = Value d)
             (pushed st)
    ∧ (∀ seed, @normalize_url urllib_model Site.A = Value seed →
         to_visit st `suffix_of` (seed, 0%Z) :: pushed st).
Proof.
  eexists. split; [vm_compute; reflexivity|]. split; [reflexivity|].
  split; [reflexivity|].
  apply (@crawl_pushes_internal_links urllib_model _ Site.crawler
           2 [] Site.A (Site.options 5 10) _ None).
  - reflexivity.
  - vm_compute. reflexivity.
Defined.

(** C3: the loop of [crawl_recursive] ends, whatever the start URL, the
    options and the fetcher: with enough fuel [crawl_recursive] returns or
    raises.  On the site where A links to B and B links to A, with
    [maxDepth] 5 and [maxPages] 10, it ends after fetching A and then B,
    and returns exactly the two records A at depth 0 and B at depth 1. *)
Theorem crawl_recursive_terminates :
  (∀ (U : Urllib) (Σ : Type) (C : Crawler Σ) (σ : Σ) (start_url : string)
     (options : Options),
     ∃ fuel res, ∀ fuel', fuel ≤ fuel' →
       crawl_recursive fuel' σ start_url options = Some res)
  ∧ (∀ fuel, 2 ≤ fuel →
       ∃ evs,
         @crawl_recursive urllib_model _ Site.crawler fuel [] Site.A
                          (Site.options 5 10)
         = Some ([Site.A; Site.B], evs,
                 Value [Site.record Site.A "A" (Some 0%Z);
                        Site.record Site.B "B" (Some 1%Z)])).
Proof.
  split.
  - intros. apply crawl_recursive_returns.
  - intros fuel Hfuel. eexists.
    apply (crawl_recursive_more_fuel 2); [|done]. vm_compute. reflexivity.
Qed.

(** ** scrape_url *)

Section ScrapeUrl.
Context {U : Urllib} {Σ : Type} {C : Crawler Σ}.

Lemma parse_sitemap_fetched σ url σ' evs sitemap_urls :
  parse_sitemap σ url = (σ', evs, sitemap_urls) → fetched evs = [].
Proof.
  unfold parse_sitemap. destruct (sitemap_get σ url) as [σ1 [urls| |e]];
    by intros [= <- <- <-].
Qed.

Lemma snd_enumerate {A} (l : list A) : snd <$> imap pair l = l.
Proof.
  rewrite fmap_imap. rewrite <- (list_fmap_id l) at 2.
  rewrite <- imap_const. by apply imap_ext.
Qed.

(** The sitemap loop calls [crawl_single_page] on its URLs, in order, up to
    the one on which an exception ends it; on all of them when none does. *)
Lemma sitemap_loop_fetched total entries σ evs records σ' evs' r :
  sitemap_loop total entries σ evs records = (σ', evs', r) →
  ∃ called,
    fetched evs' = fetched evs ++ called
    ∧ called `prefix_of` (snd <$> entries)
    ∧ (∀ records', r = Value records' → called = snd <$> entries).
Proof.
  revert σ evs records. induction entries as [|[i sitemap_url] entries IH];
    intros σ evs records; simpl.
  { intros [= <- <- <-]. exists []. by rewrite app_nil_r. }
  destruct (crawl_single_page σ sitemap_url) as [[σ1 evs1] [r1|e]] eqn:Hpage;
    apply crawl_single_page_fetched in Hpage as Hevs.
  - intros (called & Hfetched & Hprefix & Hall)%IH.
    exists (sitemap_url :: called).
    rewrite Hfetched, fetched_app. simpl. rewrite Hevs, <- app_assoc.
    split; [done|]. split; [by apply prefix_cons|].
    intros records' Hr. by rewrite (Hall records' Hr).
  - intros [= <- <- <-]. exists [sitemap_url].
    rewrite fetched_app. simpl. rewrite Hevs.
    split; [done|]. split; [|done]. apply prefix_cons, prefix_nil.
Qed.

Lemma sitemap_mode_fetched fuel σ url options σ1 evs1 sitemap_urls :
  parse_sitemap σ url = (σ1, evs1, sitemap_urls) →
  ∃ σ' evs r,
    collect_pages fuel σ url "sitemap" options = Some (σ', evs, r)
    ∧ fetched evs `prefix_of` Py.slice_to sitemap_urls (max_pages_of options)
    ∧ (∀ records, r = Value records →
         fetched evs = Py.slice_to sitemap_urls (max_pages_of options)).
Proof.
  intros Hparse. unfold collect_pages. simpl. rewrite Hparse.
  destruct (sitemap_loop _ _ _ _ _) as [[σ' evs] r] eqn:Hloop.
  exists σ', evs, r. split; [done|].
  apply sitemap_loop_fetched in Hloop as (called & -> & Hprefix & Hall).
  simpl. rewrite (parse_sitemap_fetched _ _ _ _ _ Hparse). simpl.
  rewrite snd_enumerate in Hprefix, Hall. eauto.
Qed.



Lemma process_results_many url m first second rest :
  process_results url m (first :: second :: rest)
  = let records := first :: second :: rest in
    let combined_content :=
      fold_left (λ combined page,
                   combined +:+ (page_header page +:+ page_content page))
                records "" in
    OutResult (page_title first) combined_content
      (create_excerpt combined_content default_max_length) url
      {| pagesCount := Z.of_nat (length records); mode := m;
         pages := Some ((λ r, (page_url r, page_title r)) <$> records) |}.
Proof. reflexivity. Qed.

(** The three ways through [scrape_url]. *)
Lemma scrape_url_collected fuel σ url requested m options σ' evs records :
  resolve_mode url requested = Value m →
  collect_pages fuel σ url m options = Some (σ', evs, Value records) →
  scrape_url fuel σ url requested options
  = Some (σ', ProgressStarting :: evs, process_results url m records).
Proof. intros Hmode Hcollect. unfold scrape_url. by rewrite Hmode, Hcollect. Qed.

Lemma scrape_url_raised fuel σ url requested m options σ' evs e :
  resolve_mode url requested = Value m →
  collect_pages fuel σ url m options = Some (σ', evs, Raises e) →
  scrape_url fuel σ url requested options
  = Some (σ', ProgressStarting :: evs, OutError e).
Proof. intros Hmode Hcollect. unfold scrape_url. by rewrite Hmode, Hcollect. Qed.

Lemma scrape_url_unresolved fuel σ url requested options e :
  resolve_mode url requested = Raises e →
  scrape_url fuel σ url requested options
  = Some (σ, [ProgressStarting], OutError e).
Proof. intros Hmode. unfold scrape_url. by rewrite Hmode. Qed.

Lemma collect_pages_known_mode fuel σ url m options σ' evs records :
  collect_pages fuel σ url m options = Some (σ', evs, Value records) →
  records ≠ [] →
  m = "single" ∨ m = "sitemap" ∨ m = "recursive".
Proof.
  unfold collect_pages.
  destruct (bool_decide_reflect (m = "single")); [by left|].
  destruct (bool_decide_reflect (m = "sitemap")); [by right; left|].
  destruct (bool_decide_reflect (m = "recursive")); [by right; right|].
  by intros [= <- <- <-].
Qed.

Lemma process_results_mode url m records title content excerpt u md :
  process_results url m records = OutResult title content excerpt u md →
  mode md = m ∧ records ≠ [].
Proof.
  destruct records as [|first [|second records]]; simpl; [done| |];
    by intros [= <- <- <- <- <-].
Qed.

Lemma process_results_some url m first rest :
  ∃ title content excerpt md,
    process_results url m (first :: rest)
    = OutResult title content excerpt url md.
Proof.
  destruct rest as [|second rest].
  - by eexists _, _, _, _.
  - rewrite process_results_many. by eexists _, _, _, _.
Qed.

(** A success result comes from a dispatch that completed. *)
Lemma scrape_url_result_inv fuel σ url requested options σ' evs
    title content excerpt u md :
  scrape_url fuel σ url requested options
    = Some (σ', evs, OutResult title content excerpt u md) →
  ∃ m evs1 records,
    resolve_mode url requested = Value m
    ∧ collect_pages fuel σ url m options = Some (σ', evs1, Value records)
    ∧ evs = ProgressStarting :: evs1
    ∧ process_results url m records = OutResult title content excerpt u md.
Proof.
  unfold scrape_url.
  destruct (resolve_mode url requested) as [m|e] eqn:Hmode; [|done].
  destruct (collect_pages fuel σ url m options)
    as [[[σ1 evs1] [records|e]]|] eqn:Hcollect; [|done..].
  simpl. intros [= <- <- Hout]. by exists m, evs1, records.
Qed.

Lemma resolve_mode_auto url m :
  resolve_mode url "auto" = Value m →
  (is_txt url = true ∧ m = "single")
  ∨ (is_txt url = false ∧ is_sitemap url = Value true ∧ m = "sitemap")
  ∨ (is_txt url = false ∧ is_sitemap url = Value false ∧ m = "recursive").
Proof.
  unfold resolve_mode. simpl. destruct (is_txt url).
  - intros [= <-]. by left.
  - destruct (is_sitemap url) as [[]|e]; simpl; [| |done]; intros [= <-].
    + right. by left.
    + right. by right.
Qed.

End ScrapeUrl.

(** C5, as amended: an invocation in which no page record is produced
    never returns a success result.  When the dispatch completes, it
    returns the error object with the message "No content could be
    extracted from the URL" if there is no page record and a result
    otherwise; when an exception leaves the dispatch (from the mode
    detection, or from the collection of the pages), it returns the error
    object with the message of the exception. *)
Theorem scrape_url_no_pages `{U : Urllib} `{C : Crawler Σ}
    (fuel : nat) (σ : Σ) (url requested : string) (options : Options)
    (σ' : Σ) (evs : list event) (out : Output) :
  scrape_url fuel σ url requested options = Some (σ', evs, out) →
  (∀ e, resolve_mode url requested = Raises e →
        σ' = σ ∧ fetched evs = [] ∧ out = OutError e)
  ∧ (∀ m, resolve_mode url requested = Value m →
       ∃ evs1 r,
         collect_pages fuel σ url m options = Some (σ', evs1, r)
         ∧ evs = ProgressStarting :: evs1
         ∧ match r with
           | Raises e => out = OutError e
           | Value [] =>
               out = OutError "No content could be extracted from the URL"
           | Value (_ :: _) =>
               ∃ title content excerpt md,
                 out = OutResult title content excerpt url md
           end).
Proof.
  intros Hrun. split.
  - intros e He. rewrite (scrape_url_unresolved _ _ _ _ _ e He) in Hrun.
    by injection Hrun as <- <- <-.
  - intros m Hm. unfold scrape_url in Hrun. rewrite Hm in Hrun.
    destruct (collect_pages fuel σ url m options)
      as [[[σ1 evs1] r]|]; [|done].
    simpl in Hrun. injection Hrun as <- <- <-.
    exists evs1, r. split; [done|]. split; [done|].
    destruct r as [[|first rest]|e]; [done| |done].
    apply process_results_some.
Qed.

Lemma scrape_url_no_pages_witness :
  ∃ evs1 r,
    @collect_pages urllib_model _ Site.crawler 0 [] "https://x.test/missing"
                   "single" (Site.options 5 10)
      = Some (["https://x.test/missing"], evs1, r)
    ∧ r = Value []
    ∧ [ProgressStarting; ProgressFetching "https://x.test/missing";
       ErrorCrawl "https://x.test/missing" "unreachable"]
      = ProgressStarting :: evs1
    ∧ match r with
      | Raises e =>
          OutError "No content could be extracted from the URL" = OutError e
      | Value [] =>
          OutError "No content could be extracted from the URL"
          = OutError "No content could be extracted from the URL"
      | Value (_ :: _) =>
          ∃ title content excerpt md,
            OutError "No content could be extracted from the URL"
            = OutResult title content excerpt "https://x.test/missing" md
      end.
Proof.
  destruct (@scrape_url_no_pages urllib_model _ Site.crawler 0 []
              "https://x.test/missing" "single" (Site.options 5 10)
              ["https://x.test/missing"]
              [ProgressStarting; ProgressFetching "https://x.test/missing";
               ErrorCrawl "https://x.test/missing" "unreachable"]
              (OutError "No content could be extracted from the URL"))
    as [_ Hdone].
  - vm_compute. reflexivity.
  - destruct (Hdone "single" eq_refl) as (evs1 & r & Hcollect & Hevs & Hout).
    exists evs1, r. split; [exact Hcollect|]. split; [|split; [exact Hevs|exact Hout]].
    vm_compute in Hcollect. congruence.
Defined.

(** C5, as stated, fails: in mode [auto] this URL, whose network location
    opens a bracket that is never closed, makes [urlparse] raise in
    [is_sitemap].  Nothing is fetched and no page record is produced, and
    the error object carries the message of the exception, not "No content
    could be extracted from the URL". *)
Lemma scrape_url_no_pages_cex :
  @scrape_url urllib_model _ Site.crawler 0 [] "http://[::1/x" "auto"
              (Site.options 5 10)
  = Some ([], [ProgressStarting], OutError "Invalid IPv6 URL")
  ∧ OutError "Invalid IPv6 URL"
    ≠ OutError "No content could be extracted from the URL".
Proof. split; [vm_compute; reflexivity|done]. Qed.



(** C7, as amended: in sitemap mode with a non-negative [maxPages] (50 when
    absent), [crawl_single_page] is called only on the first [maxPages]
    URLs of the sitemap list, in the list's order: the fetched URLs are a
    prefix of them.  When no exception ends the loop they are all of them,
    and when one does the error object carries its message. *)
Theorem sitemap_fetches_first_pages `{U : Urllib} `{C : Crawler Σ}
    (fuel : nat) (σ : Σ) (url requested : string) (options : Options)
    (σ1 : Σ) (evs1 : list event) (sitemap_urls : list string) :
  resolve_mode url requested = Value "sitemap" →
  parse_sitemap σ url = (σ1, evs1, sitemap_urls) →
  (0 ≤ max_pages_of options)%Z →
  ∃ σ' evs out r,
    scrape_url fuel σ url requested options = Some (σ', evs, out)
    ∧ collect_pages fuel σ url "sitemap" options = Some (σ', tail evs, r)
    ∧ fetched evs
      `prefix_of` take (Z.to_nat (max_pages_of options)) sitemap_urls
    ∧ match r with
      | Value _ =>
          fetched evs = take (Z.to_nat (max_pages_of options)) sitemap_urls
      | Raises e => out = OutError e
      end.
Proof.
  intros Hmode Hparse Hk.
  destruct (sitemap_mode_fetched fuel σ url options σ1 evs1
              sitemap_urls Hparse) as (σ' & evs & r & Hcollect & Hprefix & Hall).
  rewrite slice_to_nonneg in Hprefix, Hall by done.
  destruct r as [records|e].
  - exists σ', (ProgressStarting :: evs),
           (process_results url "sitemap" records), (Value records).
    split; [by eapply scrape_url_collected|]. split; [done|]. split; [done|].
    by eapply Hall.
  - exists σ', (ProgressStarting :: evs), (OutError e), (Raises e).
    split; [by eapply scrape_url_raised|]. by split.
Qed.

Lemma sitemap_fetches_first_pages_witness :
  ∃ σ' evs out,
    @scrape_url urllib_model _ Site.crawler 0 [] Site.sitemap "auto"
                (Site.options 5 2) = Some (σ', evs, out)
    ∧ fetched evs = [Site.A; Site.B]
    ∧ fetched evs `prefix_of` [Site.A; Site.B].
Proof.
  destruct (@sitemap_fetches_first_pages urllib_model _ Site.crawler 0 []
              Site.sitemap "auto" (Site.options 5 2) [] []
              [Site.A; Site.B; Site.C])
    as (σ' & evs & out & r & Hrun & Hcollect & Hprefix & Hall).
  - vm_compute. reflexivity.
  - vm_compute. reflexivity.
  - unfold max_pages_of. simpl. lia.
  - exists σ', evs, out. split; [exact Hrun|]. split; [|exact Hprefix].
    vm_compute in Hrun. injection Hrun as _ <- _. reflexivity.
Defined.

(** C7, as stated, fails twice.  For a negative [maxPages] the slice
    [sitemap_urls[:-1]] is the list without its last URL, so for the sitemap
    [A, B, C] the pages A and B are fetched, which are not among the first
    -1 URLs.  And for the sitemap [D, B, C] with [maxPages] 2, where the
    page D carries a link that [urljoin] rejects, the exception ends the
    loop after one fetch: only D is fetched, not D and then B. *)
Lemma sitemap_fetches_cex :
  (∃ evs out,
     @scrape_url urllib_model _ Site.crawler 0 [] Site.sitemap "auto"
                 (Site.options 5 (-1)) = Some ([Site.A; Site.B], evs, out)
     ∧ fetched evs = [Site.A; Site.B]
     ∧ ¬ fetched evs
         `prefix_of` take (Z.to_nat (max_pages_of (Site.options 5 (-1))))
                          [Site.A; Site.B; Site.C])
  ∧ (∃ evs,
       @parse_sitemap _ Site.crawler [] Site.sitemap_d
         = ([], [], [Site.D; Site.B; Site.C])
       ∧ @scrape_url urllib_model _ Site.crawler 0 [] Site.sitemap_d "auto"
                     (Site.options 5 2)
         = Some ([Site.D], evs, OutError "Invalid IPv6 URL")
       ∧ fetched evs = [Site.D]
       ∧ fetched evs ≠ [Site.D; Site.B]).
Proof.
  split.
  - do 2 eexists. split; [vm_compute; reflexivity|]. split; [done|].
    simpl. by intros [k Hk].
  - eexists. split; [reflexivity|]. split; [vm_compute; reflexivity|].
    by split.
Qed.

(** C10: the mode in the metadata of a success result is one of [single],
    [sitemap] and [recursive]: for the requested mode [auto] it is the mode
    chosen from the URL before any fetch, and any other requested mode is
    reported as it was given. *)
Theorem scrape_url_reports_mode `{U : Urllib} `{C : Crawler Σ}
    (fuel : nat) (σ : Σ) (url requested : string) (options : Options)
    (σ' : Σ) (evs : list event) (title content excerpt u : string)
    (md : Metadata) :
  scrape_url fuel σ url requested options
    = Some (σ', evs, OutResult title content excerpt u md) →
  (mode md = "single" ∨ mode md = "sitemap" ∨ mode md = "recursive")
  ∧ (requested = "auto" →
     (is_txt url = true ∧ mode md = "single")
     ∨ (is_txt url = false ∧ is_sitemap url = Value true
        ∧ mode md = "sitemap")
     ∨ (is_txt url = false ∧ is_sitemap url = Value false
        ∧ mode md = "recursive"))
  ∧ (requested ≠ "auto" → mode md = requested).
Proof.
  intros (m & evs1 & records & Hmode & Hcollect & -> & Hout)%scrape_url_result_inv.
  apply process_results_mode in Hout as [-> Hne].
  split; [by eapply collect_pages_known_mode|]. split.
  - intros ->. by apply resolve_mode_auto.
  - intros Hreq. unfold resolve_mode in Hmode.
    destruct (bool_decide_reflect (requested = "auto")); [done|]. congruence.
Qed.

Lemma scrape_url_reports_mode_witness :
  ∃ evs title content excerpt md,
    @scrape_url urllib_model _ Site.crawler 2 [] Site.A "auto" (Site.options 5 10)
    = Some ([Site.A; Site.B], evs, OutResult title content excerpt Site.A md)
    ∧ mode md = "recursive"
    ∧ (mode md = "single" ∨ mode md = "sitemap" ∨ mode md = "recursive")
    ∧ ("auto" = "auto" →
       (is_txt Site.A = true ∧ mode md = "single")
       ∨ (is_txt Site.A = false ∧ @is_sitemap urllib_model Site.A = Value true
          ∧ mode md = "sitemap")
       ∨ (is_txt Site.A = false ∧ @is_sitemap urllib_model Site.A = Value false
          ∧ mode md = "recursive"))
    ∧ ("auto" ≠ "auto" → mode md = "auto").
Proof.
  do 5 eexists. split; [vm_compute; reflexivity|]. split; [reflexivity|].
  eapply (@scrape_url_reports_mode urllib_model _ Site.crawler 2 [] Site.A
            "auto" (Site.options 5 10)).
  vm_compute. reflexivity.
Defined.
Section MoreCrawlProperties.
Context {U : Urllib} {Σ : Type} {C : Crawler Σ}.
Variables (start_url : string) (max_depth max_pages : Z)
          (follow_internal_only : bool).

Local Abbreviation iteration' :=
  (λ st url depth rest,
     fst (crawl_iteration start_url max_depth follow_internal_only
                          st url depth rest)).
Local Abbreviation loop' :=
  (crawl_loop start_url max_depth max_pages follow_internal_only).

(** When the loop ends without an exception, the queue is empty or the
    page budget is used up. *)
Lemma crawl_loop_exit fuel (st st' : crawl_state Σ) :
  loop' fuel st = Some (st', None) →
  to_visit st' = [] ∨ (max_pages ≤ pages_processed st')%Z.
Proof.
  revert st. induction fuel as [|fuel IH]; intros st Hrun; simpl in Hrun;
    destruct (to_visit st) as [|[url depth] rest] eqn:Hq.
  - injection Hrun as <-. by left.
  - destruct (Z.ltb_spec (pages_processed st) max_pages); [done|].
    injection Hrun as <-. by right.
  - injection Hrun as <-. by left.
  - destruct (Z.ltb_spec (pages_processed st) max_pages).
    + destruct (crawl_iteration _ _ _ st url depth rest) as [st1 [e|]];
        [done|]. by eapply IH.
    + injection Hrun as <-. by right.
Qed.

Lemma crawl_single_page_url σ url σ' evs r :
  crawl_single_page σ url = (σ', evs, Value r) → result_url r = url.
Proof. apply crawl_single_page_returns_url. Qed.

Lemma crawl_single_page_title (σ : Σ) url σ' evs u content title links :
  crawl_single_page σ url = (σ', evs, Value (PageOk u content title links)) →
  title ≠ "".
Proof.
  unfold crawl_single_page. destruct (arun σ url) as [σ1 [e|run]]; [done|].
  destruct (run_success run); [|done].
  destruct (page_links url run); simpl; [|done]. intros [= _ _ _ _ <- _].
  by destruct (bool_decide_reflect
                 (match run_metadata_title run with
                  | Some t => t
                  | None => if bool_decide (run_markdown run = "") then ""
                            else extract_title_from_content (run_markdown run)
                  end = "")).
Qed.

Lemma records_titled_iteration st url depth rest :
  to_visit st = (url, depth) :: rest →
  (pages_processed st < max_pages)%Z →
  records_titled st → records_titled (iteration' st url depth rest).
Proof.
  intros _ _ Htitled. cbv beta. apply crawl_iteration_cases.
  - intros Hskip. by rewrite crawl_iteration_skip.
  - intros Hnew Hd.
    destruct (crawl_iteration_process start_url max_depth follow_internal_only
                st url depth rest Hnew Hd) as (σ' & evs & r & Hpage & ->).
    unfold records_titled. simpl. apply Forall_app. split; [done|].
    destruct r as [[u content title links|]|]; simpl; [|by constructor..].
    constructor; [|by constructor]. simpl. by eapply crawl_single_page_title.
Qed.

Lemma records_of_page_url σ url σ' evs depth r :
  crawl_single_page σ url = (σ', evs, r) →
  page_url <$> records_of_page depth r `sublist_of` [url].
Proof.
  intros Hpage. destruct r as [[u content title links|]|]; simpl;
    [|apply sublist_nil_l..].
  by rewrite <- (crawl_single_page_url _ _ _ _ _ Hpage).
Qed.

Lemma records_follow_fetches_iteration st url depth rest :
  to_visit st = (url, depth) :: rest →
  (pages_processed st < max_pages)%Z →
  records_follow_fetches st → records_follow_fetches (iteration' st url depth rest).
Proof.
  intros _ _ Hsub. cbv beta. apply crawl_iteration_cases.
  - intros Hskip. by rewrite crawl_iteration_skip.
  - intros Hnew Hd.
    destruct (crawl_iteration_process start_url max_depth follow_internal_only st url depth rest Hnew Hd)
      as (σ' & evs & r & Hpage & ->).
    pose proof (records_of_page_url _ _ _ _ depth _ Hpage) as Hurl.
    apply crawl_single_page_fetched in Hpage as Hevs.
    unfold records_follow_fetches. simpl.
    rewrite fmap_app, fetched_app. simpl. rewrite Hevs.
    by apply sublist_app.
Qed.

Lemma discovered_depths seen depth r :
  Forall (λ q, snd q = (depth + 1)%Z ∧ (depth < max_depth)%Z)
         (discovered start_url max_depth follow_internal_only seen depth r).
Proof.
  destruct r as [[u content title links|u e]|e]; simpl; [|by constructor..].
  destruct (Z.ltb_spec depth max_depth); [|by constructor].
  eapply Forall_impl; [apply follow_links_new|]. simpl. intros q (_ & _ & ? & _).
  done.
Qed.

Lemma omap_depth_records_of_page depth r :
  Forall (λ d, d = depth) (omap page_depth (records_of_page depth r)).
Proof. destruct r as [[]|]; simpl; by repeat constructor. Qed.

Lemma breadth_first_iteration st url depth rest :
  to_visit st = (url, depth) :: rest →
  (pages_processed st < max_pages)%Z →
  breadth_first max_depth st → breadth_first max_depth (iteration' st url depth rest).
Proof.
  intros Hq _ (level & Hlevel & Hres & Hsorted & Hqueue & Hqsorted & Hpushed).
  rewrite Hq in Hqueue, Hqsorted. simpl in Hqsorted.
  apply Forall_cons in Hqueue as [Hd Hrest]. simpl in Hd.
  apply StronglySorted_cons in Hqsorted as [Hge Hrsorted].
  assert (Forall (λ q, (depth ≤ snd q ≤ depth + 1)%Z) rest) as Hrest'.
  { apply Forall_forall. intros q Hin.
    rewrite Forall_forall in Hrest. specialize (Hrest q Hin).
    rewrite Forall_forall in Hge. specialize (Hge (snd q)).
    assert (depth ≤ snd q)%Z by (apply Hge, list_elem_of_fmap; eauto). lia. }
  assert (Forall (λ p, ∃ d, page_depth p = Some d ∧ (0 ≤ d ≤ depth)%Z) (results st))
    as Hres'.
  { eapply Forall_impl; [exact Hres|]. simpl. intros p (d & ? & ?).
    exists d. split; [done|lia]. }
  cbv beta. apply crawl_iteration_cases.
  - intros Hskip. rewrite crawl_iteration_skip by done.
    exists depth. simpl. repeat split; [lia|done..].
  - intros Hnew Hdepth.
    destruct (crawl_iteration_process start_url max_depth follow_internal_only st url depth rest Hnew Hdepth)
      as (σ' & evs & r & _ & ->).
    pose proof (discovered_depths ({[url]} ∪ visited st) depth r) as Hnewq.
    exists depth. simpl. split; [lia|]. split; [|split; [|split; [|split]]].
    + apply Forall_app. split; [done|].
      destruct r as [[]|]; simpl; repeat constructor.
      eexists. split; [done|]. lia.
    + rewrite omap_app. apply StronglySorted_app. split; [|split].
      * intros d1 d2 Hd1 Hd2.
        apply list_elem_of_omap in Hd1 as (p & Hp & Hpd).
        rewrite Forall_forall in Hres. destruct (Hres p Hp) as (d & Hpd' & ?).
        pose proof (omap_depth_records_of_page depth r) as Hrec.
        rewrite Forall_forall in Hrec. rewrite (Hrec d2 Hd2).
        assert (d1 = d) by congruence. lia.
      * done.
      * destruct r as [[]|]; simpl; repeat constructor.
    + apply Forall_app. split; [done|].
      eapply Forall_impl; [exact Hnewq|]. simpl. intros q [-> _]. lia.
    + rewrite fmap_app. apply StronglySorted_app. split; [|split].
      * intros d1 d2 Hd1 Hd2.
        apply list_elem_of_fmap in Hd1 as (q1 & -> & Hq1).
        apply list_elem_of_fmap in Hd2 as (q2 & -> & Hq2).
        rewrite Forall_forall in Hrest'. specialize (Hrest' q1 Hq1).
        rewrite Forall_forall in Hnewq. destruct (Hnewq q2 Hq2) as [-> _]. lia.
      * done.
      * clear -Hnewq.
        induction Hnewq as [|q qs [Hq _] Hqs IH]; simpl; [constructor|].
        apply StronglySorted_cons. split; [|done].
        apply Forall_forall. intros d (q' & -> & Hq')%list_elem_of_fmap.
        rewrite Forall_forall in Hqs. destruct (Hqs q' Hq') as [-> _]. lia.
    + apply Forall_app. split; [done|].
      eapply Forall_impl; [exact Hnewq|]. simpl. intros q [-> ?]. lia.
Qed.

Lemma start_page_first_iteration seed st url depth rest :
  to_visit st = (url, depth) :: rest →
  (pages_processed st < max_pages)%Z →
  start_page_first seed st →
  start_page_first seed (iteration' st url depth rest).
Proof.
  intros Hq _ [[Hres [[Hqueue Hf]|[Hqueue _]]]|(p & ps & Hres & Hurl & Hdepth)].
  - rewrite Hqueue in Hq. injection Hq as <- <- <-.
    cbv beta. apply crawl_iteration_cases.
    + intros Hskip. rewrite crawl_iteration_skip by done.
      left. simpl. split; [done|]. right. split; [done|]. rewrite Hf. simpl. lia.
    + intros Hnew Hd.
      destruct (crawl_iteration_process start_url max_depth follow_internal_only
                  st _ _ [] Hnew Hd) as (σ' & evs & r & Hpage & ->).
      apply crawl_single_page_fetched in Hpage as Hevs.
      destruct r as [[u content title links|u e]|e].
      * apply crawl_single_page_url in Hpage as Hurl. simpl in Hurl.
        right. simpl. rewrite Hres. simpl. by eexists _, _.
      * left. simpl. rewrite Hres. split; [done|]. right. split; [done|].
        rewrite fetched_app, Hf. simpl. rewrite Hevs. simpl. lia.
      * left. simpl. rewrite Hres. split; [done|]. right. split; [done|].
        rewrite fetched_app, Hf. simpl. rewrite Hevs. simpl. lia.
  - by rewrite Hqueue in Hq.
  - cbv beta. apply crawl_iteration_cases.
    + intros Hskip. rewrite crawl_iteration_skip by done.
      right. simpl. by exists p, ps.
    + intros Hnew Hd.
      destruct (crawl_iteration_process start_url max_depth follow_internal_only
                  st url depth rest Hnew Hd) as (σ' & evs & r & _ & ->).
      right. simpl. rewrite Hres. by eexists p, _.
Qed.

Lemma discovered_at_max_depth seen depth r :
  (max_depth ≤ depth)%Z →
  discovered start_url max_depth follow_internal_only seen depth r = [].
Proof.
  intros Hle. destruct r as [[]|]; simpl; [|done..].
  by destruct (Z.ltb_spec depth max_depth); [lia|].
Qed.

Lemma only_start_page_iteration seed st url depth rest :
  (max_depth ≤ 0)%Z →
  to_visit st = (url, depth) :: rest →
  (pages_processed st < max_pages)%Z →
  only_start_page seed max_depth max_pages st →
  only_start_page seed max_depth max_pages (iteration' st url depth rest).
Proof.
  intros Hmd Hq Hlt
    [Hpushed [(Hqueue & Hf & Hpp & Hvis)|[(Hqueue & _)|(Hqueue & _)]]];
    [|by rewrite Hqueue in Hq..].
  rewrite Hqueue in Hq. injection Hq as <- <- <-.
  cbv beta. apply crawl_iteration_cases.
  - intros [Hin|Hlt0]; [by rewrite Hvis in Hin; apply not_elem_of_empty in Hin|].
    rewrite crawl_iteration_skip by (by right).
    split; [done|]. right. left. simpl. repeat split; [done..|lia].
  - intros Hnew Hd.
    destruct (crawl_iteration_process start_url max_depth follow_internal_only
                st _ _ [] Hnew Hd) as (σ' & evs & r & Hpage & ->).
    apply crawl_single_page_fetched in Hpage as Hevs.
    cbv zeta. rewrite discovered_at_max_depth by done. simpl.
    split; [by rewrite Hpushed|]. right. right. simpl.
    rewrite fetched_app, Hf. simpl. rewrite Hevs. repeat split; try done; lia.
Qed.

Lemma crawl_single_page_no_page_progress σ url σ' evs r :
  crawl_single_page σ url = (σ', evs, r) → page_progress evs = [].
Proof.
  unfold crawl_single_page. destruct (arun σ url) as [σ1 [e|run]].
  - by intros [= <- <- <-].
  - destruct (run_success run); by intros [= <- <- <-].
Qed.

Lemma page_progress_app evs1 evs2 :
  page_progress (evs1 ++ evs2) = page_progress evs1 ++ page_progress evs2.
Proof. apply omap_app. Qed.

Lemma progress_counts_fetches_iteration st url depth rest :
  to_visit st = (url, depth) :: rest →
  (pages_processed st < max_pages)%Z →
  progress_counts_fetches st → progress_counts_fetches (iteration' st url depth rest).
Proof.
  intros _ _ (Hurls & Hnums & Hpp). cbv beta. apply crawl_iteration_cases.
  - intros Hskip. by rewrite crawl_iteration_skip.
  - intros Hnew Hd.
    destruct (crawl_iteration_process start_url max_depth follow_internal_only
                st url depth rest Hnew Hd) as (σ' & evs & r & Hpage & ->).
    pose proof (crawl_single_page_no_page_progress _ _ _ _ _ Hpage) as Hnone.
    apply crawl_single_page_fetched in Hpage as Hevs.
    unfold progress_counts_fetches. simpl.
    rewrite page_progress_app, fetched_app. simpl. rewrite Hnone, Hevs.
    rewrite !fmap_app, length_app. simpl. rewrite Hurls, Hnums.
    split; [done|]. split; [|lia].
    rewrite Nat.add_1_r, seq_S, fmap_app. simpl. do 2 f_equal. lia.
Qed.

End MoreCrawlProperties.

(** ** More on crawl_recursive *)

(** ** More on crawl_recursive *)

Section MoreCrawlRecursive.
Context {U : Urllib} {Σ : Type} {C : Crawler Σ}.

(** An exception ends the loop in an iteration that has counted its
    page. *)
Lemma crawl_loop_raised start_url max_depth max_pages follow_internal_only
    fuel (st st' : crawl_state Σ) e :
  crawl_loop start_url max_depth max_pages follow_internal_only fuel st
    = Some (st', Some e) →
  (pages_processed st < pages_processed st')%Z.
Proof.
  revert st. induction fuel as [|fuel IH]; intros st Hrun; simpl in Hrun;
    destruct (to_visit st) as [|[url depth] rest] eqn:Hq; [done| |done|].
  - by destruct (pages_processed st <? max_pages)%Z.
  - destruct (pages_processed st <? max_pages)%Z; [|done].
    revert Hrun. apply crawl_iteration_cases.
    + intros Hskip. rewrite crawl_iteration_skip by done.
      intros Hrun%IH. done.
    + intros Hnew Hd.
      destruct (crawl_iteration_process start_url max_depth
                  follow_internal_only st url depth rest Hnew Hd)
        as (σ' & evs & r & _ & ->). cbv zeta.
      destruct (raised_on_page _ _ _ _ _ _).
      * intros [= <- _]. simpl. lia.
      * intros Hrun%IH. simpl in Hrun. lia.
Qed.

Lemma crawl_run_exit fuel (σ : Σ) start_url options st :
  crawl_run fuel σ start_url options = Some (st, None) →
  to_visit st = [] ∨ (max_pages_of options ≤ pages_processed st)%Z.
Proof.
  unfold crawl_run. destruct (normalize_url start_url); [|done].
  apply crawl_loop_exit.
Qed.

Lemma crawl_recursive_run fuel (σ : Σ) start_url options σ' evs r :
  crawl_recursive fuel σ start_url options = Some (σ', evs, r) →
  ∃ st raised,
    crawl_run fuel σ start_url options = Some (st, raised)
    ∧ world st = σ' ∧ emitted st = evs
    ∧ r = match raised with
          | None => Value (results st)
          | Some e => Raises e
          end.
Proof.
  unfold crawl_recursive.
  destruct (crawl_run fuel σ start_url options) as [[st raised]|]; [|done].
  intros [= <- <- <-]. by exists st, raised.
Qed.

Lemma crawl_recursive_run_value fuel (σ : Σ) start_url options σ' evs records :
  crawl_recursive fuel σ start_url options = Some (σ', evs, Value records) →
  ∃ st,
    crawl_run fuel σ start_url options = Some (st, None)
    ∧ world st = σ' ∧ emitted st = evs ∧ results st = records.
Proof.
  intros (st & [e|] & Hrun & ? & ? & Hr)%crawl_recursive_run; [done|].
  injection Hr as ->. by exists st.
Qed.

(** The invariants of the loop hold in the state in which [crawl_recursive]
    ends, also when an exception ends it. *)
Lemma crawl_run_invariants fuel (σ : Σ) start_url options st raised :
  crawl_run fuel σ start_url options = Some (st, raised) →
  within_budget (max_depth_of options) (max_pages_of options) st
  ∧ fetched_once st
  ∧ records_follow_fetches st
  ∧ breadth_first (max_depth_of options) st
  ∧ progress_counts_fetches st
  ∧ records_titled st.
Proof.
  intros Hrun.
  assert (∀ q, Forall (λ p, normalized (fst p) ∧ snd p = 0%Z) q →
            let st0 := {| visited := ∅; to_visit := q; results := [];
                          pages_processed := 0; world := σ; emitted := [];
                          pushed := [] |} in
            within_budget (max_depth_of options) (max_pages_of options) st0
            ∧ fetched_once st0
            ∧ records_follow_fetches st0
            ∧ breadth_first (max_depth_of options) st0
            ∧ progress_counts_fetches st0
            ∧ records_titled st0) as Hinit.
  { intros q Hq. split; [|split; [|split; [|split; [|split]]]].
    + unfold within_budget. simpl. split; [by constructor|]. lia.
    + unfold fetched_once. simpl. split; [apply NoDup_nil_2|].
      split; [intros u; split; [by intros ?%elem_of_empty|by intros ?%elem_of_nil]|].
      split; [by constructor|]. split; [done|].
      eapply Forall_impl; [exact Hq|]. simpl. tauto.
    + apply sublist_nil_l.
    + exists 0%Z. simpl. split; [done|]. split; [by constructor|].
      split; [by constructor|]. split; [|split; [|by constructor]].
      * eapply Forall_impl; [exact Hq|]. simpl. intros p [_ ->]. lia.
      * clear -Hq. induction Hq as [|p q [_ Hp] Hq IH]; simpl; [constructor|].
        apply StronglySorted_cons. split; [|done].
        apply Forall_forall. intros d (p' & -> & Hp')%list_elem_of_fmap.
        rewrite Forall_forall in Hq. destruct (Hq p' Hp') as [_ ->]. lia.
    + done.
    + by constructor. }
  apply (crawl_run_invariant
           (λ st, within_budget (max_depth_of options) (max_pages_of options) st
                  ∧ fetched_once st
                  ∧ records_follow_fetches st
                  ∧ breadth_first (max_depth_of options) st
                  ∧ progress_counts_fetches st
                  ∧ records_titled st)) in Hrun; [done| | |].
  - intros seed Hseed. apply Hinit. constructor; [|by constructor].
    split; [by eexists|done].
  - apply Hinit. by constructor.
  - intros st0 url depth rest Hq Hlt (H1 & H2 & H3 & H4 & H6 & H7).
    split; [by eapply within_budget_iteration|].
    split; [by eapply fetched_once_iteration|].
    split; [by eapply records_follow_fetches_iteration|].
    split; [by eapply breadth_first_iteration|].
    split; [by eapply progress_counts_fetches_iteration|].
    by eapply records_titled_iteration.
Qed.

Lemma start_page_first_run fuel (σ : Σ) start_url options seed st raised :
  normalize_url start_url = Value seed →
  crawl_run fuel σ start_url options = Some (st, raised) →
  start_page_first seed st.
Proof.
  intros Hseed Hrun. rewrite (crawl_run_seeded _ _ _ _ seed) in Hrun by done.
  eapply (crawl_loop_invariant _ _ _ _ (start_page_first seed)) in Hrun;
    [done| |].
  - intros. by eapply start_page_first_iteration.
  - left. split; [done|]. by left.
Qed.

Lemma only_start_page_run fuel (σ : Σ) start_url options seed st raised :
  (max_depth_of options ≤ 0)%Z →
  normalize_url start_url = Value seed →
  crawl_run fuel σ start_url options = Some (st, raised) →
  only_start_page seed (max_depth_of options) (max_pages_of options) st.
Proof.
  intros Hmd Hseed Hrun.
  rewrite (crawl_run_seeded _ _ _ _ seed) in Hrun by done.
  eapply (crawl_loop_invariant _ _ _ _
            (only_start_page seed (max_depth_of options)
                             (max_pages_of options))) in Hrun; [done| |].
  - intros. by eapply only_start_page_iteration.
  - split; [done|]. by left.
Qed.

End MoreCrawlRecursive.

(** X1: a recursive crawl calls the fetcher at most [max 0 maxPages] times,
    whether the fetches succeed or not and whether it returns or raises,
    and returns at most one record per fetch. *)
Theorem crawl_fetches_within_budget `{U : Urllib} `{C : Crawler Σ}
    (fuel : nat) (σ : Σ) (start_url : string) (options : Options)
    (σ' : Σ) (evs : list event) (r : except (list PageRecord)) :
  crawl_recursive fuel σ start_url options = Some (σ', evs, r) →
  (Z.of_nat (length (fetched evs)) ≤ Z.max 0 (max_pages_of options))%Z
  ∧ (∀ records, r = Value records → length records ≤ length (fetched evs)).
Proof.
  intros (st & raised & Hrun & _ & <- & ->)%crawl_recursive_run.
  apply crawl_run_invariants
    in Hrun as ((_ & _ & Hpp) & (_ & _ & _ & Hcount & _) & Hsub & _).
  split; [lia|]. intros records Hr. destruct raised; [done|].
  injection Hr as <-.
  apply sublist_length in Hsub. by rewrite length_fmap in Hsub.
Qed.

Lemma crawl_fetches_within_budget_witness :
  ∃ σ' evs records,
    @crawl_recursive urllib_model _ Site.crawler 1 [] Site.A (Site.options 5 1)
      = Some (σ', evs, Value records)
    ∧ (Z.of_nat (length (fetched evs)) ≤ Z.max 0 (max_pages_of (Site.options 5 1)))%Z
    ∧ length records ≤ length (fetched evs).
Proof.
  do 3 eexists. split; [vm_compute; reflexivity|].
  destruct (@crawl_fetches_within_budget urllib_model _ Site.crawler
              1 [] Site.A (Site.options 5 1) [Site.A]
              [ProgressPage Site.A 1 1 0; ProgressFetching Site.A]
              (Value [Site.record Site.A "A" (Some 0%Z)]))
    as [Hfetched Hrecords].
  - vm_compute. reflexivity.
  - split; [exact Hfetched|]. by apply Hrecords.
Defined.

(** X2: the records of a recursive crawl have pairwise distinct URLs, and
    their URLs are among the fetched URLs, in the order of the fetches. *)
Theorem crawl_records_distinct_urls `{U : Urllib} `{C : Crawler Σ}
    (fuel : nat) (σ : Σ) (start_url : string) (options : Options)
    (σ' : Σ) (evs : list event) (records : list PageRecord) :
  crawl_recursive fuel σ start_url options = Some (σ', evs, Value records) →
  NoDup (page_url <$> records)
  ∧ (page_url <$> records) `sublist_of` fetched evs.
Proof.
  intros (st & Hrun & _ & <- & <-)%crawl_recursive_run_value.
  apply crawl_run_invariants in Hrun as (_ & (Hnodup & _) & Hsub & _).
  split; [|done]. by eapply sublist_NoDup.
Qed.

Lemma crawl_records_distinct_urls_witness :
  ∃ σ' evs records,
    @crawl_recursive urllib_model _ Site.crawler 2 [] Site.A (Site.options 5 10)
      = Some (σ', evs, Value records)
    ∧ page_url <$> records = [Site.A; Site.B]
    ∧ NoDup (page_url <$> records)
    ∧ (page_url <$> records) `sublist_of` fetched evs.
Proof.
  do 3 eexists. split; [vm_compute; reflexivity|]. split; [reflexivity|].
  eapply (@crawl_records_distinct_urls urllib_model _ Site.crawler
            2 [] Site.A (Site.options 5 10)).
  vm_compute. reflexivity.
Defined.

(** X3: the records of a recursive crawl come in breadth-first order: every
    record has a depth, depths are not negative, and they never decrease
    along the list. *)
Theorem crawl_records_breadth_first `{U : Urllib} `{C : Crawler Σ}
    (fuel : nat) (σ : Σ) (start_url : string) (options : Options)
    (σ' : Σ) (evs : list event) (records : list PageRecord) :
  crawl_recursive fuel σ start_url options = Some (σ', evs, Value records) →
  Forall (λ p, ∃ d, page_depth p = Some d ∧ (0 ≤ d)%Z) records
  ∧ StronglySorted Z.le (omap page_depth records).
Proof.
  intros (st & Hrun & _ & _ & <-)%crawl_recursive_run_value.
  apply crawl_run_invariants
    in Hrun as (_ & _ & _ & (level & _ & Hres & Hsorted & _) & _).
  split; [|done].
  eapply Forall_impl; [exact Hres|]. simpl. intros p (d & ? & ?).
  exists d. split; [done|lia].
Qed.

Lemma crawl_records_breadth_first_witness :
  ∃ σ' evs records,
    @crawl_recursive urllib_model _ Site.crawler 2 [] Site.A (Site.options 5 10)
      = Some (σ', evs, Value records)
    ∧ omap page_depth records = [0%Z; 1%Z]
    ∧ Forall (λ p, ∃ d, page_depth p = Some d ∧ (0 ≤ d)%Z) records
    ∧ StronglySorted Z.le (omap page_depth records).
Proof.
  do 3 eexists. split; [vm_compute; reflexivity|]. split; [reflexivity|].
  eapply (@crawl_records_breadth_first urllib_model _ Site.crawler
            2 [] Site.A (Site.options 5 10)).
  vm_compute. reflexivity.
Defined.

(** X4: every pair appended to the queue has a depth from 1 to [maxDepth]:
    links are only queued from pages above the depth limit, one level
    deeper. *)
Theorem crawl_pushed_depths `{U : Urllib} `{C : Crawler Σ}
    (fuel : nat) (σ : Σ) (start_url : string) (options : Options)
    (st : crawl_state Σ) (raised : option string) :
  crawl_run fuel σ start_url options = Some (st, raised) →
  Forall (λ q, (1 ≤ snd q ≤ max_depth_of options)%Z) (pushed st).
Proof.
  intros Hrun.
  by apply crawl_run_invariants
    in Hrun as (_ & _ & _ & (level & _ & _ & _ & _ & _ & Hpushed) & _).
Qed.

Lemma crawl_pushed_depths_witness :
  ∃ st,
    @crawl_run urllib_model _ Site.crawler 2 [] Site.A (Site.options 5 10)
      = Some (st, None)
    ∧ pushed st = [(Site.B, 1%Z)]
    ∧ Forall (λ q, (1 ≤ snd q ≤ max_depth_of (Site.options 5 10))%Z) (pushed st).
Proof.
  eexists. split; [vm_compute; reflexivity|]. split; [reflexivity|].
  apply (@crawl_pushed_depths urllib_model _ Site.crawler
           2 [] Site.A (Site.options 5 10) _ None).
  vm_compute. reflexivity.
Defined.

(** X5: if a recursive crawl returns any record, the first one is the start
    page (its normalized URL) at depth 0; and if it returns none, then at
    most one fetch was made: a start page that fails ends the crawl. *)
Theorem crawl_start_page_first `{U : Urllib} `{C : Crawler Σ}
    (fuel : nat) (σ : Σ) (start_url : string) (options : Options)
    (σ' : Σ) (evs : list event) (records : list PageRecord) :
  crawl_recursive fuel σ start_url options = Some (σ', evs, Value records) →
  (records = [] → length (fetched evs) ≤ 1)
  ∧ (∀ p, head records = Some p →
          normalize_url start_url = Value (page_url p)
          ∧ page_depth p = Some 0%Z).
Proof.
  intros (st & Hrun & _ & <- & <-)%crawl_recursive_run_value.
  destruct (normalize_url start_url) as [seed|e] eqn:Hseed; cycle 1.
  { by rewrite (crawl_run_raises _ _ _ _ e) in Hrun. }
  apply (start_page_first_run _ _ _ _ seed) in Hrun as Hfirst; [|done].
  destruct Hfirst as [[Hres [[_ Hf]|[_ Hf]]]|(p & ps & Hres & Hurl & Hdepth)];
    rewrite Hres; simpl.
  - split; [|done]. intros _. rewrite Hf. simpl. lia.
  - by split.
  - split; [done|]. intros ? [= <-]. by rewrite Hurl.
Qed.

Lemma crawl_start_page_first_witness :
  ∃ σ' evs records,
    @crawl_recursive urllib_model _ Site.crawler 1 [] "https://x.test/missing"
                     (Site.options 5 10) = Some (σ', evs, Value records)
    ∧ records = []
    ∧ (records = [] → length (fetched evs) ≤ 1)
    ∧ (∀ p, head records = Some p →
            @normalize_url urllib_model "https://x.test/missing"
            = Value (page_url p)
            ∧ page_depth p = Some 0%Z).
Proof.
  do 3 eexists. split; [vm_compute; reflexivity|]. split; [reflexivity|].
  eapply (@crawl_start_page_first urllib_model _ Site.crawler
            1 [] "https://x.test/missing" (Site.options 5 10)).
  vm_compute. reflexivity.
Defined.

(** X6: with [maxDepth] at most 0 no link is ever queued.  For [maxDepth]
    0 and a positive [maxPages] exactly the start page (its normalized URL)
    is fetched; for a negative [maxDepth], or without page budget, or when
    normalizing the start URL raises, nothing is fetched. *)
Theorem crawl_depth_zero `{U : Urllib} `{C : Crawler Σ}
    (fuel : nat) (σ : Σ) (start_url : string) (options : Options)
    (st : crawl_state Σ) (raised : option string) :
  (max_depth_of options ≤ 0)%Z →
  crawl_run fuel σ start_url options = Some (st, raised) →
  pushed st = []
  ∧ fetched (emitted st)
    = match normalize_url start_url with
      | Value seed =>
          if bool_decide (max_depth_of options = 0%Z
                          ∧ (0 < max_pages_of options)%Z)
          then [seed] else []
      | Raises _ => []
      end.
Proof.
  intros Hmd Hrun.
  destruct (normalize_url start_url) as [seed|e] eqn:Hseed; cycle 1.
  { rewrite (crawl_run_raises _ _ _ _ e) in Hrun by done.
    by injection Hrun as <- <-. }
  destruct (only_start_page_run _ _ _ _ _ _ _ Hmd Hseed Hrun)
    as [Hpushed [(Hq & Hf & Hpp & _)|[(_ & Hf & ? & ?)|(_ & Hf & ? & ?)]]];
    (split; [done|]); rewrite Hf.
  - destruct raised as [e|].
    + rewrite (crawl_run_seeded _ _ _ _ seed) in Hrun by done.
      apply crawl_loop_raised in Hrun. simpl in Hrun. lia.
    + destruct (crawl_run_exit _ _ _ _ _ Hrun) as [Hnil|Hle];
        [by rewrite Hq in Hnil|].
      rewrite bool_decide_eq_false_2; [done|]. lia.
  - rewrite bool_decide_eq_false_2; [done|]. lia.
  - by rewrite bool_decide_eq_true_2.
Qed.

Lemma crawl_depth_zero_witness :
  ∃ st,
    @crawl_run urllib_model _ Site.crawler 1 [] Site.A (Site.options 0 10)
      = Some (st, None)
    ∧ pushed st = []
    ∧ fetched (emitted st) = [Site.A].
Proof.
  eexists. split; [vm_compute; reflexivity|].
  apply (@crawl_depth_zero urllib_model _ Site.crawler
           1 [] Site.A (Site.options 0 10) _ None).
  - unfold max_depth_of. simpl. lia.
  - vm_compute. reflexivity.
Defined.

(** X7: the progress events of a recursive crawl number the pages 1, 2, 3,
    ... : there is one per fetch, for the fetched URL, in the order of the
    fetches. *)
Theorem crawl_progress_numbers_pages `{U : Urllib} `{C : Crawler Σ}
    (fuel : nat) (σ : Σ) (start_url : string) (options : Options)
    (σ' : Σ) (evs : list event) (r : except (list PageRecord)) :
  crawl_recursive fuel σ start_url options = Some (σ', evs, r) →
  fst <$> page_progress evs = fetched evs
  ∧ snd <$> page_progress evs
    = (λ k, Z.of_nat k) <$> seq 1 (length (fetched evs)).
Proof.
  intros (st & raised & Hrun & _ & <- & _)%crawl_recursive_run.
  by apply crawl_run_invariants
    in Hrun as (_ & _ & _ & _ & (Hurls & Hnums & _) & _).
Qed.

Lemma crawl_progress_numbers_pages_witness :
  ∃ σ' evs records,
    @crawl_recursive urllib_model _ Site.crawler 2 [] Site.A (Site.options 5 10)
      = Some (σ', evs, Value records)
    ∧ page_progress evs = [(Site.A, 1%Z); (Site.B, 2%Z)]
    ∧ fst <$> page_progress evs = fetched evs
    ∧ snd <$> page_progress evs
      = (λ k, Z.of_nat k) <$> seq 1 (length (fetched evs)).
Proof.
  do 3 eexists. split; [vm_compute; reflexivity|]. split; [reflexivity|].
  eapply (@crawl_progress_numbers_pages urllib_model _ Site.crawler
            2 [] Site.A (Site.options 5 10)).
  vm_compute. reflexivity.
Defined.

(** ** More on the content utilities *)

Lemma strip_drop_ws s : Text.strip s = reverse (drop_ws (reverse (drop_ws s))).
Proof. reflexivity. Qed.

Lemma drop_ws_spec l :
  ∃ ws, l = ws ++ drop_ws l ∧ Forall (λ c, Py.isspace c = true) ws
        ∧ ∀ c, head (drop_ws l) = Some c → Py.isspace c = false.
Proof.
  induction l as [|c l (ws & Hl & Hws & Hhead)]; simpl.
  { exists []. by repeat split. }
  destruct (Py.isspace c) eqn:Hc.
  - exists (c :: ws). split; [by rewrite Hl at 1|]. split; [by constructor|done].
  - exists []. split; [done|]. split; [by constructor|].
    simpl. by intros ? [= <-].
Qed.

Lemma elem_of_drop_ws x l : x ∈ drop_ws l → x ∈ l.
Proof.
  destruct (drop_ws_spec l) as (ws & Hl & _). intros Hx.
  rewrite Hl. apply elem_of_app. by right.
Qed.

Lemma strip_trimmed s : trimmed (Text.strip s).
Proof.
  rewrite strip_drop_ws.
  destruct (drop_ws_spec s) as (ws1 & _ & _ & Hhead1).
  destruct (drop_ws_spec (reverse (drop_ws s))) as (ws2 & Hrev & _ & Hhead2).
  split.
  - intros c Hc. apply Hhead1.
    assert (drop_ws s
            = reverse (drop_ws (reverse (drop_ws s))) ++ reverse ws2) as ->.
    { by rewrite <- reverse_app, <- Hrev, reverse_involutive. }
    by destruct (reverse (drop_ws (reverse (drop_ws s)))).
  - intros c Hc. apply Hhead2. by rewrite last_reverse in Hc.
Qed.

Lemma elem_of_strip x s : x ∈ Text.strip s → x ∈ s.
Proof.
  rewrite strip_drop_ws. intros Hx%elem_of_reverse%elem_of_drop_ws.
  by apply elem_of_reverse, elem_of_drop_ws in Hx.
Qed.

Lemma drop_ws_nil l : drop_ws l = [] → Forall (λ c, Py.isspace c = true) l.
Proof.
  destruct (drop_ws_spec l) as (ws & Hl & Hws & _). intros Hnil.
  rewrite Hnil, app_nil_r in Hl. by subst.
Qed.

Lemma strip_nil s : Text.strip s = [] → Forall (λ c, Py.isspace c = true) s.
Proof.
  rewrite strip_drop_ws. intros Hnil.
  apply (f_equal reverse) in Hnil. rewrite reverse_involutive in Hnil.
  simpl in Hnil. apply drop_ws_nil in Hnil. rewrite Forall_reverse in Hnil.
  destruct (drop_ws_spec s) as (ws & Hl & Hws & Hhead).
  destruct (drop_ws s) as [|c l] eqn:Hd.
  - by apply drop_ws_nil.
  - apply Forall_cons in Hnil as [Hc _]. specialize (Hhead c eq_refl). congruence.
Qed.

(** A heading found by [extract_title_from_content] is never empty. *)
Lemma title_of_lines_Some lines t :
  Text.title_of_lines lines = Some t → t ≠ [] ∧ trimmed t.
Proof.
  unfold Text.title_of_lines. intros Hhead.
  apply head_Some_elem_of, list_elem_of_omap in Hhead as (line & _ & Hline).
  pose proof (strip_trimmed line) as [_ Hlast].
  destruct (Text.strip line) as [|c1 [|c2 rest]] eqn:Hstrip; [done| |].
  { by repeat case_match. }
  assert (c1 = "#"%char ∧ c2 = " "%char ∧ t = Text.strip rest) as (-> & -> & ->).
  { destruct c1 as [[] [] [] [] [] [] [] []]; try done.
    destruct c2 as [[] [] [] [] [] [] [] []]; try done.
    by injection Hline as <-. }
  split; [|apply strip_trimmed].
  intros Hnil%strip_nil.
  destruct rest as [|c rest _] using rev_ind.
  - by specialize (Hlast " "%char eq_refl).
  - apply Forall_app in Hnil as [_ [Hc _]%Forall_cons].
    specialize (Hlast c). rewrite !app_comm_cons, last_snoc in Hlast.
    specialize (Hlast eq_refl). congruence.
Qed.

(** X8: the title that [extract_title_from_content] returns is never empty
    and has no whitespace at either end, whether it comes from a heading
    line or is the placeholder. *)
Theorem extract_title_never_empty (content : string) :
  extract_title_from_content content ≠ ""
  ∧ trimmed (Py.chars (extract_title_from_content content)).
Proof.
  unfold extract_title_from_content.
  destruct (Text.title_of_lines _) as [t|] eqn:Ht.
  - apply title_of_lines_Some in Ht as [Hne Htrim].
    rewrite chars_str. split; [|done].
    intros Hnil. apply Hne. by rewrite <- (chars_str t), Hnil.
  - split; [done|]. split; by intros c [= <-].
Qed.

Lemma elem_of_lines_go x line cur text :
  line ∈ Text.lines_go cur text → x ∈ line → x ∈ cur ∨ x ∈ text.
Proof.
  revert cur. induction text as [|c text IH]; intros cur; simpl.
  - intros ->%list_elem_of_singleton Hx. left. by apply elem_of_reverse.
  - destruct (bool_decide_reflect (c = Py.newline)) as [->|].
    + intros [->|Hin]%elem_of_cons Hx.
      * left. by apply elem_of_reverse.
      * destruct (IH [] Hin Hx) as [?%elem_of_nil|?]; [done|].
        right. by apply elem_of_cons; right.
    + intros Hin Hx.
      destruct (IH (c :: cur) Hin Hx) as [[->|?]%elem_of_cons|?].
      * right. apply list_elem_of_here.
      * by left.
      * right. by apply list_elem_of_further.
Qed.

(** X9: content without any [#] character has no heading, and the title is
    the placeholder "Untitled Document"; in particular for empty content. *)
Theorem extract_title_without_heading (content : string) :
  "#"%char ∉ Py.chars content →
  extract_title_from_content content = "Untitled Document".
Proof.
  intros Hno. unfold extract_title_from_content.
  destruct (Text.title_of_lines _) as [t|] eqn:Ht; [|done].
  exfalso. apply Hno. unfold Text.title_of_lines in Ht.
  apply head_Some_elem_of, list_elem_of_omap in Ht as (line & Hline & Hmatch).
  assert ("#"%char ∈ line) as Hin.
  { apply elem_of_strip.
    destruct (Text.strip line) as [|c1 rest]; [done|].
    assert (c1 = "#"%char) as ->.
    { destruct c1 as [[] [] [] [] [] [] [] []]; try done. }
    apply list_elem_of_here. }
  by destruct (elem_of_lines_go _ _ _ _ Hline Hin) as [?%elem_of_nil|?].
Qed.

Lemma extract_title_without_heading_witness :
  extract_title_from_content "plain text, no heading" = "Untitled Document".
Proof.
  apply extract_title_without_heading.
  apply (bool_decide_unpack _). by vm_compute.
Defined.

(** *** The cleaned text *)

Lemma elem_of_remove_patterns x patterns text :
  x ∈ fold_left (λ text pattern, Text.remove_char pattern text) patterns text
  ↔ x ∈ text ∧ x ∉ patterns.
Proof.
  revert text. induction patterns as [|p patterns IH]; intros text; simpl.
  { split; [intros ?; split; [done|apply not_elem_of_nil]|by intros [? _]]. }
  rewrite IH. unfold Text.remove_char. rewrite list_elem_of_filter, not_elem_of_cons.
  tauto.
Qed.

Lemma remove_patterns_id patterns text :
  Forall (λ x, x ∉ patterns) text →
  fold_left (λ text pattern, Text.remove_char pattern text) patterns text = text.
Proof.
  revert text. induction patterns as [|p patterns IH]; intros text Hno; simpl; [done|].
  assert (Text.remove_char p text = text) as ->.
  { unfold Text.remove_char. induction Hno as [|x l Hx _ IHl]; [done|].
    rewrite filter_cons. apply not_elem_of_cons in Hx as [Hx _].
    destruct (decide (x ≠ p)); [|done]. by rewrite IHl. }
  apply IH. eapply Forall_impl; [exact Hno|]. simpl.
  intros x Hx. by apply not_elem_of_cons in Hx as [_ ?].
Qed.

Lemma split_go_words cur text :
  Forall (λ c, Py.isspace c = false) cur →
  Forall word (Text.split_go cur text)
  ∧ ∀ w x, w ∈ Text.split_go cur text → x ∈ w → x ∈ cur ∨ x ∈ text.
Proof.
  revert cur. induction text as [|c text IH]; intros cur Hcur; simpl.
  - destruct cur as [|c0 cur]; [split; [by constructor|by intros ?? ?%elem_of_nil]|].
    split.
    + constructor; [|by constructor]. split.
      * intros Hnil. apply (f_equal length) in Hnil.
        rewrite length_reverse in Hnil. done.
      * by apply Forall_reverse.
    + intros w x ->%list_elem_of_singleton Hx. left. by apply elem_of_reverse.
  - destruct (Py.isspace c) eqn:Hc.
    + destruct (IH [] (Forall_nil_2 _)) as [Hwords Helems].
      assert (∀ w x, w ∈ Text.split_go [] text → x ∈ w → x ∈ cur ∨ x ∈ c :: text)
        as Helems'.
      { intros w x Hw Hx. right. apply list_elem_of_further.
        by destruct (Helems w x Hw Hx) as [?%elem_of_nil|?]. }
      destruct cur as [|c0 cur]; [done|]. split.
      * constructor; [|done]. split.
        -- intros Hnil. apply (f_equal length) in Hnil.
           rewrite length_reverse in Hnil. done.
        -- by apply Forall_reverse.
      * intros w x [->|Hw]%elem_of_cons Hx; [|by eapply Helems'].
        left. by apply elem_of_reverse.
    + destruct (IH (c :: cur)) as [Hwords Helems]; [by constructor|].
      split; [done|]. intros w x Hw Hx.
      destruct (Helems w x Hw Hx) as [[->|?]%elem_of_cons|?].
      * right. apply list_elem_of_here.
      * by left.
      * right. by apply list_elem_of_further.
Qed.

Lemma join_cons sep w words :
  words ≠ [] → Text.join sep (w :: words) = w ++ sep ++ Text.join sep words.
Proof. by destruct words. Qed.

Lemma elem_of_join x sep words :
  x ∈ Text.join sep words → x ∈ sep ∨ ∃ w, w ∈ words ∧ x ∈ w.
Proof.
  induction words as [|w words IH]; [by intros ?%elem_of_nil|].
  destruct words as [|w' words].
  - simpl. intros Hx. right. exists w. split; [apply list_elem_of_here|done].
  - rewrite join_cons by done. intros [Hx|[Hx|Hx]%elem_of_app]%elem_of_app.
    + right. exists w. split; [apply list_elem_of_here|done].
    + by left.
    + destruct (IH Hx) as [?|(w0 & Hw0 & ?)]; [by left|].
      right. exists w0. split; [by apply list_elem_of_further|done].
Qed.

(** The cleaned text is a list of words joined by single spaces, made of
    characters of the content that are not markdown punctuation. *)
Lemma clean_words content :
  ∃ words, Text.clean content = Text.join [Py.space] words
           ∧ Forall word words
           ∧ ∀ w x, w ∈ words → x ∈ w →
                    x ∈ content ∧ x ∉ Text.markdown_patterns.
Proof.
  unfold Text.clean, Text.split.
  destruct (split_go_words [] (fold_left (λ text pattern, Text.remove_char pattern text)
                                         Text.markdown_patterns content)
                           (Forall_nil_2 _)) as [Hwords Helems].
  eexists. split; [done|]. split; [done|].
  intros w x Hw Hx. destruct (Helems w x Hw Hx) as [?%elem_of_nil|Hin]; [done|].
  by apply elem_of_remove_patterns in Hin.
Qed.

Lemma split_go_app_word cur w rest :
  Forall (λ c, Py.isspace c = false) w →
  Text.split_go cur (w ++ rest) = Text.split_go (reverse w ++ cur) rest.
Proof.
  intros Hw. revert cur. induction Hw as [|c w Hc _ IH]; intros cur; [done|].
  simpl. rewrite Hc, IH, reverse_cons, <- app_assoc. done.
Qed.

Lemma split_go_end cur :
  cur ≠ [] → Text.split_go cur [] = [reverse cur].
Proof. by destruct cur. Qed.

Lemma split_go_space cur rest :
  cur ≠ [] →
  Text.split_go cur (Py.space :: rest) = reverse cur :: Text.split_go [] rest.
Proof. by destruct cur. Qed.

Lemma split_join words :
  Forall word words → Text.split (Text.join [Py.space] words) = words.
Proof.
  unfold Text.split. induction 1 as [|w words [Hne Hw] _ IH]; [done|].
  assert (reverse w ≠ []) as Hrev.
  { intros Hnil. apply Hne. by rewrite <- (reverse_involutive w), Hnil. }
  destruct words as [|w' words].
  - simpl. rewrite <- (app_nil_r w), split_go_app_word by done.
    rewrite !app_nil_r, split_go_end by done. by rewrite reverse_involutive.
  - rewrite join_cons by done. rewrite split_go_app_word by done.
    rewrite app_nil_r. change ([Py.space] ++ ?l) with (Py.space :: l).
    rewrite split_go_space by done. by rewrite reverse_involutive, IH.
Qed.

Lemma word_no_space w : word w → Py.space ∉ w.
Proof.
  intros [_ Hw] Hin. rewrite Forall_forall in Hw. by specialize (Hw _ Hin).
Qed.

(** A space in a text of joined words separates two of the words. *)
Lemma join_cut words b rest :
  Forall word words →
  Text.join [Py.space] words = b ++ Py.space :: rest →
  ∃ words1 words2, words = words1 ++ words2 ∧ words1 ≠ []
                   ∧ b = Text.join [Py.space] words1.
Proof.
  intros Hwords. revert b.
  induction Hwords as [|w words Hw Hwords IH]; intros b Heq.
  { by destruct b. }
  pose proof (word_no_space w Hw) as Hnosp.
  destruct words as [|w' words].
  - simpl in Heq. exfalso. apply Hnosp. rewrite Heq.
    apply elem_of_app. right. apply list_elem_of_here.
  - rewrite join_cons in Heq by done.
    apply app_eq_inv in Heq as [(k & Hwk & Hk)|(k & Hbk & Hk)].
    + destruct k as [|c k].
      * rewrite app_nil_r in Hwk. subst b.
        exists [w], (w' :: words). by repeat split.
      * simpl in Hk. injection Hk as <- _. exfalso. apply Hnosp. rewrite Hwk.
        apply elem_of_app. right. apply list_elem_of_here.
    + destruct k as [|c k].
      * rewrite app_nil_r in Hbk. subst b.
        exists [w], (w' :: words). by repeat split.
      * simpl in Hk. injection Hk as <- Hk.
        destruct (IH k Hk) as (words1 & words2 & Hsplit & Hne & ->).
        exists (w :: words1), words2. split; [by rewrite Hsplit|].
        split; [done|]. subst b. by rewrite join_cons.
Qed.

Lemma join_snoc sep words w x :
  Text.join sep (words ++ [w]) ++ x = Text.join sep (words ++ [w ++ x]).
Proof.
  induction words as [|w0 words IH]; [done|].
  rewrite <- !app_comm_cons, !join_cons by (by destruct words).
  by rewrite <- !app_assoc, IH.
Qed.

Lemma ellipsis_word w :
  Forall (λ c, Py.isspace c = false) w → word (w ++ Text.ellipsis).
Proof.
  intros Hw. split; [by destruct w|].
  apply Forall_app. split; [done|]. by repeat constructor.
Qed.

Lemma elem_of_rsplit_head x s : x ∈ Text.rsplit_head s → x ∈ s.
Proof.
  unfold Text.rsplit_head.
  destruct (Text.before_last_space s) as [p|] eqn:Hp; simpl; [|done].
  apply before_last_space_Some in Hp as (r & -> & _). intros Hx.
  apply elem_of_app. by left.
Qed.

Lemma rsplit_head_prefix s : Text.rsplit_head s `prefix_of` s.
Proof.
  unfold Text.rsplit_head.
  destruct (Text.before_last_space s) as [p|] eqn:Hp; simpl; [|done].
  apply before_last_space_Some in Hp as (r & -> & _). by eexists.
Qed.

Lemma slice_to_prefix {A} (l : list A) k : Py.slice_to l k `prefix_of` l.
Proof. unfold Py.slice_to. destruct (0 <=? k)%Z; apply prefix_take. Qed.

Lemma slice_to_sublist {A} (l : list A) k : Py.slice_to l k `sublist_of` l.
Proof. unfold Py.slice_to. destruct (0 <=? k)%Z; apply sublist_take. Qed.

Lemma elem_of_prefix {A} (x : A) l1 l2 : l1 `prefix_of` l2 → x ∈ l1 → x ∈ l2.
Proof. intros [k ->] Hx. apply elem_of_app. by left. Qed.

(** The excerpt, too, is a list of words joined by single spaces. *)
Lemma excerpt_words content max_length :
  ∃ words, Text.excerpt content max_length = Text.join [Py.space] words
           ∧ Forall word words.
Proof.
  unfold Text.excerpt.
  destruct (clean_words content) as (words & Hclean & Hwords & _).
  destruct (Z.of_nat (length (Text.clean content)) <=? max_length)%Z; [by eauto|].
  pose proof (slice_to_prefix (Text.clean content) max_length) as [tail Htail].
  unfold Text.rsplit_head.
  destruct (Text.before_last_space (Py.slice_to (Text.clean content) max_length))
    as [b|] eqn:Hb; simpl.
  - apply before_last_space_Some in Hb as (r & Hr & _).
    rewrite Hr, <- app_assoc in Htail. simpl in Htail. rewrite Hclean in Htail.
    apply join_cut in Htail as (words1 & words2 & -> & Hne & ->); [|done].
    destruct words1 as [|w words1 _] using rev_ind; [done|].
    rewrite join_snoc. eexists. split; [done|].
    apply Forall_app in Hwords as [Hwords1 _].
    apply Forall_app in Hwords1 as [Hinit [[_ Hlast] _]%Forall_cons].
    apply Forall_app. split; [done|]. constructor; [|by constructor].
    by apply ellipsis_word.
  - apply before_last_space_None in Hb.
    exists [Py.slice_to (Text.clean content) max_length ++ Text.ellipsis].
    split; [done|]. constructor; [|by constructor]. apply ellipsis_word.
    apply Forall_forall. intros x Hx.
    assert (x ∈ Text.clean content) as Hin.
    { rewrite Htail. apply elem_of_app. by left. }
    rewrite Hclean in Hin. apply elem_of_join in Hin as [Hsp|(w & Hw & Hxw)].
    + apply list_elem_of_singleton in Hsp as ->. done.
    + rewrite Forall_forall in Hwords. destruct (Hwords w Hw) as [_ Hns].
      rewrite Forall_forall in Hns. by apply Hns.
Qed.

Lemma elem_of_excerpt x content max_length :
  x ∈ Text.excerpt content max_length →
  x ∈ Text.clean content ∨ x ∈ Text.ellipsis.
Proof.
  unfold Text.excerpt.
  destruct (Z.of_nat (length (Text.clean content)) <=? max_length)%Z; [by left|].
  intros [Hx|Hx]%elem_of_app; [|by right]. left.
  apply elem_of_rsplit_head in Hx.
  by eapply elem_of_prefix; [apply slice_to_prefix|].
Qed.

Lemma elem_of_clean x content :
  x ∈ Text.clean content →
  x = Py.space
  ∨ (x ∈ content ∧ (x ∉ Text.markdown_patterns) ∧ Py.isspace x = false).
Proof.
  destruct (clean_words content) as (words & -> & Hwords & Helems).
  intros [->%list_elem_of_singleton|(w & Hw & Hx)]%elem_of_join; [by left|].
  right. destruct (Helems w x Hw Hx) as [? ?]. split; [done|]. split; [done|].
  rewrite Forall_forall in Hwords. destruct (Hwords w Hw) as [_ Hns].
  rewrite Forall_forall in Hns. by apply Hns.
Qed.

Lemma space_not_markdown : Py.space ∉ Text.markdown_patterns.
Proof. apply (bool_decide_unpack _). by vm_compute. Qed.

Lemma dot_not_markdown : "."%char ∉ Text.markdown_patterns.
Proof. apply (bool_decide_unpack _). by vm_compute. Qed.

Lemma excerpt_plain x content max_length :
  x ∈ Text.excerpt content max_length →
  (x ∉ Text.markdown_patterns) ∧ (Py.isspace x = true → x = Py.space).
Proof.
  intros [Hx|Hx]%elem_of_excerpt.
  - apply elem_of_clean in Hx as [->|(_ & Hno & Hns)].
    + split; [|done]. apply space_not_markdown.
    + split; [done|]. congruence.
  - unfold Text.ellipsis in Hx.
    assert (x = "."%char) as ->.
    { repeat (apply elem_of_cons in Hx as [Hx|Hx]; [done|]).
      by apply elem_of_nil in Hx. }
    split; [apply dot_not_markdown|done].
Qed.

Lemma clean_excerpt content max_length :
  Text.clean (Text.excerpt content max_length) = Text.excerpt content max_length.
Proof.
  destruct (excerpt_words content max_length) as (words & Heq & Hwords).
  unfold Text.clean. rewrite remove_patterns_id.
  - by rewrite Heq, split_join.
  - apply Forall_forall. intros x Hx. by apply excerpt_plain in Hx as [? _].
Qed.

(** X10: an excerpt contains none of the markdown punctuation characters
    that [create_excerpt] removes, and no whitespace character other than
    the plain space, for every content and every [max_length]. *)
Theorem create_excerpt_plain_text (content : string) (max_length : Z) :
  Forall (λ c, (c ∉ Text.markdown_patterns)
               ∧ (Py.isspace c = true → c = Py.space))
         (Py.chars (create_excerpt content max_length)).
Proof.
  unfold create_excerpt. rewrite chars_str. apply Forall_forall.
  intros x Hx. by eapply excerpt_plain.
Qed.

(** X11: an excerpt is its own excerpt: excerpting it again, with a
    [max_length] that it fits in, gives it back unchanged (it is already
    free of markdown punctuation and its whitespace is already collapsed). *)
Theorem create_excerpt_stable (content : string) (max_length again : Z) :
  (Py.len (create_excerpt content max_length) ≤ again)%Z →
  create_excerpt (create_excerpt content max_length) again
  = create_excerpt content max_length.
Proof.
  unfold create_excerpt. rewrite len_str, chars_str. intros Hfit.
  f_equal. unfold Text.excerpt at 1. rewrite clean_excerpt.
  by destruct (Z.leb_spec (Z.of_nat (length (Text.excerpt (Py.chars content)
                                                           max_length))) again);
    [|lia].
Qed.

Lemma create_excerpt_stable_witness :
  create_excerpt (create_excerpt "# Hello   *brave* new [world](x)" 13) 300
  = create_excerpt "# Hello   *brave* new [world](x)" 13.
Proof.
  apply create_excerpt_stable. vm_compute. congruence.
Defined.

(** X12: when the cleaned text has at most [max_length] characters the
    excerpt is the whole cleaned text, without ellipsis; otherwise it is a
    prefix of the cleaned text followed by [...], and for a non-negative
    [max_length] that prefix has at most [max_length] characters. *)
Theorem create_excerpt_shape (content : string) (max_length : Z) :
  ((Z.of_nat (length (Text.clean (Py.chars content))) ≤ max_length)%Z →
   create_excerpt content max_length = Py.str (Text.clean (Py.chars content)))
  ∧ ((max_length < Z.of_nat (length (Text.clean (Py.chars content))))%Z →
     ∃ body, create_excerpt content max_length = Py.str (body ++ Text.ellipsis)
             ∧ body `prefix_of` Text.clean (Py.chars content)
             ∧ ((0 ≤ max_length)%Z → (Z.of_nat (length body) ≤ max_length)%Z)).
Proof.
  unfold create_excerpt, Text.excerpt.
  set (text := Text.clean (Py.chars content)).
  destruct (Z.leb_spec (Z.of_nat (length text)) max_length).
  - split; [done|lia].
  - split; [lia|]. intros _. eexists. split; [done|]. split.
    + etrans; [apply rsplit_head_prefix|apply slice_to_prefix].
    + intros Hk. pose proof (length_rsplit_head (Py.slice_to text max_length)).
      pose proof (length_slice_to text max_length Hk). lia.
Qed.

(** ** More on crawl_single_page and scrape_url *)

Section MoreScrapeUrl.
Context {U : Urllib} {Σ : Type} {C : Crawler Σ}.

Lemma crawl_run_no_budget fuel (σ : Σ) start_url options :
  (max_pages_of options ≤ 0)%Z →
  crawl_run fuel σ start_url options
  = match normalize_url start_url with
    | Value seed => Some (crawl_init seed σ, None)
    | Raises e => Some (crawl_blank σ, Some e)
    end.
Proof.
  intros Hle. unfold crawl_run.
  destruct (normalize_url start_url); [|done].
  destruct fuel; simpl;
    by destruct (Z.ltb_spec 0 (max_pages_of options)); [lia|].
Qed.

Lemma collect_pages_single fuel (σ : Σ) url options :
  collect_pages fuel σ url "single" options
  = let '(σ', evs, result) := crawl_single_page σ url in
    Some (σ', evs, result ← result; Value (record_of result)).
Proof. reflexivity. Qed.

Lemma collect_pages_sitemap fuel (σ : Σ) url options :
  collect_pages fuel σ url "sitemap" options
  = let '(σ', evs, sitemap_urls) := parse_sitemap σ url in
    Some (sitemap_loop (Z.of_nat (length sitemap_urls))
            (imap pair (Py.slice_to sitemap_urls (max_pages_of options)))
            σ' (ProgressParsingSitemap :: evs) []).
Proof. reflexivity. Qed.

Lemma collect_pages_recursive fuel (σ : Σ) url options :
  collect_pages fuel σ url "recursive" options
  = crawl_recursive fuel σ url options.
Proof. reflexivity. Qed.

Lemma collect_pages_other fuel (σ : Σ) url m options :
  m ≠ "single" → m ≠ "sitemap" → m ≠ "recursive" →
  collect_pages fuel σ url m options = Some (σ, [], Value []).
Proof.
  intros. unfold collect_pages.
  by rewrite !bool_decide_eq_false_2.
Qed.

Lemma resolve_mode_explicit url m : m ≠ "auto" → resolve_mode url m = Value m.
Proof. intros. unfold resolve_mode. by rewrite bool_decide_eq_false_2. Qed.

(** The sitemap loop keeps the records of the pages that were fetched with
    success, in the order of the URLs. *)
Lemma sitemap_loop_records total entries (σ : Σ) evs records σ' evs' all :
  sitemap_loop total entries σ evs records = (σ', evs', Value all) →
  ∃ new,
    all = records ++ new
    ∧ (page_url <$> new) `sublist_of` (snd <$> entries)
    ∧ Forall (λ p, page_depth p = None ∧ page_title p ≠ "") new.
Proof.
  revert σ evs records. induction entries as [|[i sitemap_url] entries IH];
    intros σ evs records; simpl.
  { intros [= <- <- <-]. exists []. by rewrite app_nil_r. }
  destruct (crawl_single_page σ sitemap_url) as [[σ1 evs1] [r|e]] eqn:Hpage;
    [|done].
  intros (new & -> & Hsub & Hnew)%IH.
  pose proof (crawl_single_page_url _ _ _ _ _ Hpage) as Hurl.
  exists (record_of r ++ new). simpl. split; [by rewrite app_assoc|].
  rewrite fmap_app. split.
  - apply (sublist_app (page_url <$> record_of r) [sitemap_url]
                       (page_url <$> new) (snd <$> entries)); [|done].
    destruct r; simpl in *; [by subst|apply sublist_nil_l].
  - apply Forall_app. split; [|done].
    destruct r as [u content title links|]; simpl; [|by constructor].
    constructor; [|by constructor]. split; [done|].
    by eapply crawl_single_page_title.
Qed.

Lemma process_results_inv url m records title content excerpt u md :
  process_results url m records = OutResult title content excerpt u md →
  ∃ first rest,
    records = first :: rest
    ∧ title = page_title first
    ∧ excerpt = create_excerpt content default_max_length
    ∧ u = url
    ∧ pagesCount md = Z.of_nat (length records)
    ∧ mode md = m
    ∧ pages md = match rest with
                 | [] => None
                 | _ => Some ((λ r, (page_url r, page_title r)) <$> records)
                 end
    ∧ (rest = [] → content = page_content first).
Proof.
  destruct records as [|first [|second rest]]; [done| |].
  - simpl. intros [= <- <- <- <- <-]. by eexists _, _.
  - rewrite process_results_many. cbv zeta. intros [= <- <- <- <- <-].
    by eexists _, _.
Qed.

(** [crawl_single_page] raises only what [urljoin] raises on a link of a
    page that was fetched with success. *)
Lemma crawl_single_page_raises (σ : Σ) url σ' evs e :
  crawl_single_page σ url = (σ', evs, Raises e) →
  ∃ run, arun σ url = (σ', Returned run)
         ∧ run_success run = true
         ∧ page_links url run = Raises e.
Proof.
  unfold crawl_single_page.
  destruct (arun σ url) as [σ1 [e1|run]]; [done|].
  destruct (run_success run) eqn:Hsuccess; [|done].
  destruct (page_links url run) as [links|e1] eqn:Hlinks; simpl; [done|].
  intros [= <- <- <-]. by exists run.
Qed.


End MoreScrapeUrl.

(** X13: whatever the fetcher does (raise, fail, succeed), exactly one
    fetch event is printed; the dict that [crawl_single_page] returns
    carries the URL it was given, and a successful result has a non-empty
    title (["Untitled"] when nothing else is found); and what
    [crawl_single_page] raises is what [urljoin] raises on a link of a page
    fetched with success. *)
Theorem crawl_single_page_result `{U : Urllib} `{C : Crawler Σ}
    (σ : Σ) (url : string) (σ' : Σ) (evs : list event)
    (r : except page_result) :
  crawl_single_page σ url = (σ', evs, r) →
  fetched evs = [url]
  ∧ (∀ result, r = Value result →
       result_url result = url
       ∧ ∀ u content title links,
           result = PageOk u content title links → title ≠ "")
  ∧ (∀ e, r = Raises e →
       ∃ run, arun σ url = (σ', Returned run)
              ∧ run_success run = true
              ∧ (map_except (urljoin url) (run_links run) = Raises e
                 ∨ (map_except (urljoin url) (run_links run) = Value []
                    ∧ map_except (urljoin url)
                        (filter (λ m, Py.startswith m "http"
                                      || Py.startswith m "/")
                                (run_html_hrefs run)) = Raises e))).
Proof.
  intros Hpage. split; [by eapply crawl_single_page_fetched|]. split.
  - intros result ->. split; [by eapply crawl_single_page_url|].
    intros u content title links ->. by eapply crawl_single_page_title.
  - intros e ->.
    apply crawl_single_page_raises in Hpage as (run & Hrun & Hsuccess & Hlinks).
    exists run. split; [done|]. split; [done|]. unfold page_links in Hlinks.
    destruct (map_except (urljoin url) (run_links run)) as [[|l ls]|e1];
      simpl in Hlinks; [|done|].
    + right. by split.
    + left. congruence.
Qed.

Lemma crawl_single_page_result_witness :
  ∃ σ' evs r,
    @crawl_single_page urllib_model _ Site.crawler [] Site.A = (σ', evs, r)
    ∧ r = Value (PageOk Site.A "text of A" "A" [Site.B])
    ∧ fetched evs = [Site.A]
    ∧ (∀ result, r = Value result →
         result_url result = Site.A
         ∧ ∀ u content title links,
             result = PageOk u content title links → title ≠ "").
Proof.
  do 3 eexists. split; [vm_compute; reflexivity|]. split; [reflexivity|].
  destruct (@crawl_single_page_result urllib_model _ Site.crawler [] Site.A
              [Site.A] [ProgressFetching Site.A]
              (Value (PageOk Site.A "text of A" "A" [Site.B])))
    as (Hfetched & Hvalue & _).
  - vm_compute. reflexivity.
  - split; [exact Hfetched|exact Hvalue].
Defined.

(** X14: every success result of [scrape_url], in any mode, carries the
    URL that was asked for, a non-empty title, the excerpt of its own
    content, and a [pagesCount] of at least 1; the [pages] list is present
    exactly when there is more than one page, has [pagesCount] entries, and
    starts with the page whose title is the result's title. *)
Theorem scrape_url_result_shape `{U : Urllib} `{C : Crawler Σ}
    (fuel : nat) (σ : Σ) (url requested : string) (options : Options)
    (σ' : Σ) (evs : list event) (title content excerpt u : string)
    (md : Metadata) :
  scrape_url fuel σ url requested options
    = Some (σ', evs, OutResult title content excerpt u md) →
  u = url
  ∧ title ≠ ""
  ∧ excerpt = create_excerpt content default_max_length
  ∧ (1 ≤ pagesCount md)%Z
  ∧ (pages md = None ↔ pagesCount md = 1%Z)
  ∧ ∀ l, pages md = Some l →
         Z.of_nat (length l) = pagesCount md ∧ snd <$> head l = Some title.
Proof.
  intros (m & evs' & records & Hmode & Hcollect & -> & Hout)%scrape_url_result_inv.
  apply process_results_inv
    in Hout as (first & rest & -> & -> & -> & -> & Hcount & _ & Hpages & _).
  split; [done|]. split.
  { assert (Forall (λ p, page_title p ≠ "") (first :: rest)) as Htitled;
      [|by apply Forall_cons in Htitled as [? _]].
    unfold collect_pages in Hcollect.
    destruct (bool_decide (m = "single")).
    { destruct (crawl_single_page σ url) as [[σ1 evs1] [r|e]] eqn:Hpage;
        [|done].
      injection Hcollect as _ _ Hrec.
      destruct r as [u content' title links|]; [|done]. simpl in Hrec.
      rewrite <- Hrec. repeat constructor. simpl.
      by eapply crawl_single_page_title. }
    destruct (bool_decide (m = "sitemap")).
    { destruct (parse_sitemap σ url) as [[σ1 evs1] urls].
      injection Hcollect as Hloop.
      apply sitemap_loop_records in Hloop as (new & Hnew & _ & Htitles).
      simpl in Hnew. rewrite Hnew.
      eapply Forall_impl; [exact Htitles|]. by intros ? [_ ?]. }
    destruct (bool_decide (m = "recursive")); [|done].
    apply crawl_recursive_run_value in Hcollect as (st & Hrun & _ & _ & <-).
    by apply crawl_run_invariants in Hrun as (_ & _ & _ & _ & _ & ?). }
  split; [done|]. rewrite Hcount, Hpages. simpl.
  split; [lia|]. split.
  - destruct rest; simpl; split; try done; lia.
  - intros l Hl. destruct rest; [done|]. injection Hl as <-.
    split; [|done]. simpl. by rewrite length_fmap.
Qed.

Lemma scrape_url_result_shape_witness :
  ∃ σ' evs title content excerpt md,
    @scrape_url urllib_model _ Site.crawler 2 [] Site.A "auto" (Site.options 5 10)
    = Some (σ', evs, OutResult title content excerpt Site.A md)
    ∧ Site.A = Site.A
    ∧ title ≠ ""
    ∧ excerpt = create_excerpt content default_max_length
    ∧ (1 ≤ pagesCount md)%Z
    ∧ (pages md = None ↔ pagesCount md = 1%Z)
    ∧ ∀ l, pages md = Some l →
           Z.of_nat (length l) = pagesCount md ∧ snd <$> head l = Some title.
Proof.
  do 6 eexists. split; [vm_compute; reflexivity|].
  eapply (@scrape_url_result_shape urllib_model _ Site.crawler 2 [] Site.A
            "auto" (Site.options 5 10)).
  vm_compute. reflexivity.
Defined.

(** X15: in single mode [scrape_url] fetches the URL exactly as given, once,
    with any fuel.  When the page is fetched with success and its links
    resolve, it returns a result for that one page, without a [pages] list;
    when the fetch fails, the no-content error; and when [urljoin] raises
    on a link of the page, the error object with the message of that
    exception. *)
Theorem scrape_url_single_mode `{U : Urllib} `{C : Crawler Σ}
    (fuel : nat) (σ : Σ) (url requested : string) (options : Options) :
  resolve_mode url requested = Value "single" →
  ∃ σ' evs r,
    crawl_single_page σ url = (σ', evs, r)
    ∧ fetched evs = [url]
    ∧ scrape_url fuel σ url requested options
      = Some (σ', ProgressStarting :: evs,
              match r with
              | Raises e => OutError e
              | Value (PageFail _ _) =>
                  OutError "No content could be extracted from the URL"
              | Value (PageOk _ content title _) =>
                  OutResult title content
                    (create_excerpt content default_max_length) url
                    {| pagesCount := 1; mode := "single"; pages := None |}
              end).
Proof.
  intros Hmode. unfold scrape_url. rewrite Hmode, collect_pages_single.
  destruct (crawl_single_page σ url) as [[σ' evs] r] eqn:Hpage.
  apply crawl_single_page_fetched in Hpage as Hf.
  exists σ', evs, r. split; [done|]. split; [done|].
  by destruct r as [[]|].
Qed.

Lemma scrape_url_single_mode_witness :
  ∃ σ' evs r,
    @crawl_single_page urllib_model _ Site.crawler [] Site.D = (σ', evs, r)
    ∧ r = Raises "Invalid IPv6 URL"
    ∧ fetched evs = [Site.D]
    ∧ @scrape_url urllib_model _ Site.crawler 0 [] Site.D "single"
                  (Site.options 5 10)
      = Some (σ', ProgressStarting :: evs,
              match r with
              | Raises e => OutError e
              | Value (PageFail _ _) =>
                  OutError "No content could be extracted from the URL"
              | Value (PageOk _ content title _) =>
                  OutResult title content
                    (create_excerpt content default_max_length) Site.D
                    {| pagesCount := 1; mode := "single"; pages := None |}
              end).
Proof.
  destruct (@scrape_url_single_mode urllib_model _ Site.crawler 0 []
              Site.D "single" (Site.options 5 10))
    as (σ' & evs & r & Hpage & Hfetched & Hrun).
  - vm_compute. reflexivity.
  - exists σ', evs, r. split; [exact Hpage|].
    split; [|split; [exact Hfetched|exact Hrun]].
    vm_compute in Hpage. congruence.
Defined.

(** X16: a mode other than [auto], [single], [sitemap] and [recursive] is
    not rejected: [scrape_url] fetches nothing, leaves the world as it was
    and returns the no-content error. *)
Theorem scrape_url_unknown_mode `{U : Urllib} `{C : Crawler Σ}
    (fuel : nat) (σ : Σ) (url requested : string) (options : Options) :
  requested ∉ ["auto"; "single"; "sitemap"; "recursive"] →
  scrape_url fuel σ url requested options
  = Some (σ, [ProgressStarting],
          OutError "No content could be extracted from the URL").
Proof.
  intros Hnot. rewrite !not_elem_of_cons in Hnot.
  destruct Hnot as (? & ? & ? & ? & _).
  unfold scrape_url. rewrite resolve_mode_explicit by done.
  by rewrite collect_pages_other.
Qed.

Lemma scrape_url_unknown_mode_witness :
  @scrape_url urllib_model _ Site.crawler 0 [] Site.A "recursion" (Site.options 5 10)
  = Some ([], [ProgressStarting],
          OutError "No content could be extracted from the URL").
Proof.
  apply (@scrape_url_unknown_mode urllib_model _ Site.crawler 0 [] Site.A
           "recursion" (Site.options 5 10)).
  apply (bool_decide_unpack _). by vm_compute.
Defined.

(** X17: in sitemap mode, when there is nothing to fetch (the sitemap could
    not be read, it lists no URL, or the slice for [maxPages] is empty), no
    page is fetched and [scrape_url] returns the no-content error. *)
Theorem scrape_url_sitemap_nothing_to_fetch `{U : Urllib} `{C : Crawler Σ}
    (fuel : nat) (σ : Σ) (url requested : string) (options : Options)
    (σ1 : Σ) (evs1 : list event) (sitemap_urls : list string) :
  resolve_mode url requested = Value "sitemap" →
  parse_sitemap σ url = (σ1, evs1, sitemap_urls) →
  Py.slice_to sitemap_urls (max_pages_of options) = [] →
  scrape_url fuel σ url requested options
  = Some (σ1, ProgressStarting :: ProgressParsingSitemap :: evs1,
          OutError "No content could be extracted from the URL")
  ∧ fetched (ProgressStarting :: ProgressParsingSitemap :: evs1) = [].
Proof.
  intros Hmode Hparse Hslice. split.
  - unfold scrape_url. rewrite Hmode, collect_pages_sitemap, Hparse, Hslice. done.
  - simpl. by eapply parse_sitemap_fetched.
Qed.

Lemma scrape_url_sitemap_nothing_to_fetch_witness :
  @scrape_url urllib_model _ Site.crawler 0 [] "https://x.test/sitemap_old.xml"
              "auto" (Site.options 5 10)
  = Some ([], [ProgressStarting; ProgressParsingSitemap],
          OutError "No content could be extracted from the URL")
  ∧ fetched [ProgressStarting; ProgressParsingSitemap] = [].
Proof.
  apply (@scrape_url_sitemap_nothing_to_fetch urllib_model _ Site.crawler 0 []
           "https://x.test/sitemap_old.xml" "auto" (Site.options 5 10) [] [] []).
  - vm_compute. reflexivity.
  - vm_compute. reflexivity.
  - reflexivity.
Defined.

(** X18: [scrape_url] returns in every mode, for every fetcher, also when
    an exception is raised on the way: some amount of fuel is enough, and
    more fuel gives the same answer. *)
Theorem scrape_url_terminates `{U : Urllib} `{C : Crawler Σ}
    (σ : Σ) (url requested : string) (options : Options) :
  ∃ fuel res, ∀ fuel', fuel ≤ fuel' →
    scrape_url fuel' σ url requested options = Some res.
Proof.
  unfold scrape_url, collect_pages.
  destruct (resolve_mode url requested) as [m|e]; [|by eexists 0, _].
  destruct (bool_decide (m = "single")).
  { destruct (crawl_single_page σ url) as [[σ' evs] r]. by eexists 0, _. }
  destruct (bool_decide (m = "sitemap")).
  { destruct (parse_sitemap σ url) as [[σ' evs] urls].
    destruct (sitemap_loop _ _ _ _ _) as [[σ2 evs2] records]. by eexists 0, _. }
  destruct (bool_decide (m = "recursive")).
  - destruct (crawl_recursive_returns σ url options)
      as (fuel & [[σ' evs] records] & Hrun).
    eexists fuel, _. intros fuel' Hle. by rewrite (Hrun fuel' Hle).
  - by eexists 0, _.
Qed.

(** X19: a success result in sitemap mode has at most as many pages as the
    sitemap lists, at most [maxPages] of them when [maxPages] is not
    negative, and the URLs of its [pages] list are URLs of the sitemap, in
    the sitemap's order. *)
Theorem scrape_url_sitemap_pages `{U : Urllib} `{C : Crawler Σ}
    (fuel : nat) (σ : Σ) (url requested : string) (options : Options)
    (σ1 σ' : Σ) (evs1 evs : list event) (sitemap_urls : list string)
    (title content excerpt u : string) (md : Metadata) :
  resolve_mode url requested = Value "sitemap" →
  parse_sitemap σ url = (σ1, evs1, sitemap_urls) →
  scrape_url fuel σ url requested options
    = Some (σ', evs, OutResult title content excerpt u md) →
  (pagesCount md ≤ Z.of_nat (length sitemap_urls))%Z
  ∧ ((0 ≤ max_pages_of options)%Z → (pagesCount md ≤ max_pages_of options)%Z)
  ∧ ∀ l, pages md = Some l → (fst <$> l) `sublist_of` sitemap_urls.
Proof.
  intros Hmode Hparse
    (m & evs' & records & Hm & Hcollect & -> & Hout)%scrape_url_result_inv.
  assert (m = "sitemap") as -> by congruence.
  rewrite collect_pages_sitemap, Hparse in Hcollect.
  injection Hcollect as Hloop.
  apply sitemap_loop_records in Hloop as (new & Hnew & Hsub & _).
  simpl in Hnew. subst new.
  rewrite snd_enumerate in Hsub.
  apply process_results_inv
    in Hout as (first & rest & -> & _ & _ & _ & Hcount & _ & Hpages & _).
  pose proof (sublist_length _ _ Hsub) as Hlen. rewrite length_fmap in Hlen.
  pose proof (slice_to_prefix sitemap_urls (max_pages_of options)) as Hprefix.
  pose proof (prefix_length _ _ Hprefix) as Hlen'.
  split; [lia|]. split.
  - intros Hk. pose proof (length_slice_to sitemap_urls _ Hk). lia.
  - intros l Hl. rewrite Hpages in Hl. destruct rest as [|second rest]; [done|].
    assert (l = (λ r, (page_url r, page_title r)) <$> first :: second :: rest)
      as -> by congruence.
    rewrite <- list_fmap_compose.
    etrans; [exact Hsub|]. apply slice_to_sublist.
Qed.

Lemma scrape_url_sitemap_pages_witness :
  ∃ σ' evs title content excerpt md,
    @scrape_url urllib_model _ Site.crawler 0 [] Site.sitemap "auto"
                (Site.options 5 2)
    = Some (σ', evs, OutResult title content excerpt Site.sitemap md)
    ∧ pages md = Some [(Site.A, "A"); (Site.B, "B")]
    ∧ (pagesCount md ≤ Z.of_nat (length [Site.A; Site.B; Site.C]))%Z
    ∧ ((0 ≤ max_pages_of (Site.options 5 2))%Z →
       (pagesCount md ≤ max_pages_of (Site.options 5 2))%Z)
    ∧ ∀ l, pages md = Some l →
           (fst <$> l) `sublist_of` [Site.A; Site.B; Site.C].
Proof.
  do 6 eexists. split; [vm_compute; reflexivity|]. split; [reflexivity|].
  eapply (@scrape_url_sitemap_pages urllib_model _ Site.crawler 0 []
            Site.sitemap "auto" (Site.options 5 2) []).
  - vm_compute. reflexivity.
  - vm_compute. reflexivity.
  - vm_compute. reflexivity.
Defined.

(** X20: a success result in recursive mode is built from the start page
    first: its title is the title of the page at the normalized start URL,
    its [pagesCount] is at most [maxPages], and the URLs of its [pages] list
    are pairwise distinct. *)
Theorem scrape_url_recursive_result `{U : Urllib} `{C : Crawler Σ}
    (fuel : nat) (σ : Σ) (url requested : string) (options : Options)
    (σ' : Σ) (evs : list event) (title content excerpt u : string)
    (md : Metadata) :
  resolve_mode url requested = Value "recursive" →
  scrape_url fuel σ url requested options
    = Some (σ', evs, OutResult title content excerpt u md) →
  ∃ evs' first rest,
    crawl_recursive fuel σ url options = Some (σ', evs', Value (first :: rest))
    ∧ normalize_url url = Value (page_url first)
    ∧ title = page_title first
    ∧ pagesCount md = Z.of_nat (S (length rest))
    ∧ (pagesCount md ≤ max_pages_of options)%Z
    ∧ ∀ l, pages md = Some l → NoDup (fst <$> l).
Proof.
  intros Hmode
    (m & evs' & records & Hm & Hcollect & -> & Hout)%scrape_url_result_inv.
  assert (m = "recursive") as -> by congruence.
  rewrite collect_pages_recursive in Hcollect.
  apply process_results_inv
    in Hout as (first & rest & -> & -> & _ & _ & Hcount & _ & Hpages & _).
  exists evs', first, rest. split; [done|].
  apply crawl_recursive_run_value in Hcollect as (st & Hrun & _ & _ & Hres).
  destruct (normalize_url url) as [seed|e] eqn:Hseed; cycle 1.
  { by rewrite (crawl_run_raises _ _ _ _ e) in Hrun. }
  pose proof (start_page_first_run _ _ _ _ _ _ _ Hseed Hrun) as Hfirst.
  apply crawl_run_invariants
    in Hrun as ((_ & Hlen & Hpp) & (Hnodup & _) & Hsub & _).
  unfold start_page_first, records_follow_fetches in *.
  rewrite Hres in *. simpl in Hlen.
  split.
  { destruct Hfirst as [[Hnil _]|(p & ps & Heq & Hurl & _)]; [done|].
    injection Heq as <- <-. by rewrite Hurl. }
  split; [done|]. split; [done|]. split; [rewrite Hcount; simpl; lia|].
  intros l Hl. rewrite Hpages in Hl. destruct rest as [|second rest]; [done|].
  assert (l = (λ r, (page_url r, page_title r)) <$> first :: second :: rest)
    as -> by congruence.
  rewrite <- list_fmap_compose.
  by eapply sublist_NoDup.
Qed.

Lemma scrape_url_recursive_result_witness :
  ∃ σ' evs title content excerpt md evs' first rest,
    @scrape_url urllib_model _ Site.crawler 2 [] Site.A "auto" (Site.options 5 10)
    = Some (σ', evs, OutResult title content excerpt Site.A md)
    ∧ @crawl_recursive urllib_model _ Site.crawler 2 [] Site.A (Site.options 5 10)
      = Some (σ', evs', Value (first :: rest))
    ∧ @normalize_url urllib_model Site.A = Value (page_url first)
    ∧ title = page_title first
    ∧ pagesCount md = Z.of_nat (S (length rest))
    ∧ (pagesCount md ≤ max_pages_of (Site.options 5 10))%Z
    ∧ ∀ l, pages md = Some l → NoDup (fst <$> l).
Proof.
  do 6 eexists.
  assert (@scrape_url urllib_model _ Site.crawler 2 [] Site.A "auto"
                      (Site.options 5 10) = Some (_, _, OutResult _ _ _ Site.A _))
    as Hrun by (vm_compute; reflexivity).
  destruct (@scrape_url_recursive_result urllib_model _ Site.crawler 2 []
              Site.A "auto" (Site.options 5 10) _ _ _ _ _ _ _
              ltac:(vm_compute; reflexivity) Hrun)
    as (evs' & first & rest & Hrest).
  exists evs', first, rest. split; [exact Hrun|exact Hrest].
Defined.

(** X21: in recursive mode with [maxPages] at most 0 nothing is fetched,
    with any fuel, and [scrape_url] leaves the world as it was.  It returns
    the no-content error when the start URL can be normalized, and
    otherwise the error object with the message of the exception that
    [urldefrag] raised on it. *)
Theorem scrape_url_no_page_budget `{U : Urllib} `{C : Crawler Σ}
    (fuel : nat) (σ : Σ) (url requested : string) (options : Options) :
  resolve_mode url requested = Value "recursive" →
  (max_pages_of options ≤ 0)%Z →
  scrape_url fuel σ url requested options
  = Some (σ, [ProgressStarting],
          OutError match normalize_url url with
                   | Value _ => "No content could be extracted from the URL"
                   | Raises e => e
                   end).
Proof.
  intros Hmode Hle. unfold scrape_url.
  rewrite Hmode, collect_pages_recursive. unfold crawl_recursive.
  rewrite crawl_run_no_budget by done.
  by destruct (normalize_url url).
Qed.

Lemma scrape_url_no_page_budget_witness :
  @scrape_url urllib_model _ Site.crawler 0 [] Site.A "auto" (Site.options 5 0)
  = Some ([], [ProgressStarting],
          OutError "No content could be extracted from the URL")
  ∧ @scrape_url urllib_model _ Site.crawler 0 [] "http://[::1#x" "recursive"
                (Site.options 5 0)
    = Some ([], [ProgressStarting], OutError "Invalid IPv6 URL").
Proof.
  split.
  - apply (@scrape_url_no_page_budget urllib_model _ Site.crawler 0 [] Site.A
             "auto" (Site.options 5 0)).
    + vm_compute. reflexivity.
    + unfold max_pages_of. simpl. lia.
  - apply (@scrape_url_no_page_budget urllib_model _ Site.crawler 0 []
             "http://[::1#x" "recursive" (Site.options 5 0)).
    + vm_compute. reflexivity.
    + unfold max_pages_of. simpl. lia.
Defined.

(** X22: mode detection.  When [auto] resolves, it resolves to one of the
    three modes; a URL ending in [.txt] is taken in single mode even when
    it also looks like a sitemap, and one ending in [sitemap.xml] and not in
    [.txt] in sitemap mode, both without parsing the URL; detection raises
    exactly when the URL ends in neither and [urlparse] raises on it; and
    resolving a resolved mode changes nothing. *)
Theorem resolve_mode_detects `{U : Urllib} (url requested : string) :
  (∀ m, resolve_mode url "auto" = Value m →
        m ∈ ["single"; "sitemap"; "recursive"])
  ∧ (ends_with url ".txt" → resolve_mode url "auto" = Value "single")
  ∧ (¬ ends_with url ".txt" → ends_with url "sitemap.xml" →
     resolve_mode url "auto" = Value "sitemap")
  ∧ (∀ e, resolve_mode url "auto" = Raises e ↔
          ¬ ends_with url ".txt" ∧ ¬ ends_with url "sitemap.xml"
          ∧ urlparse_path url = Raises e)
  ∧ (∀ m, resolve_mode url requested = Value m →
          resolve_mode url m = Value m).
Proof.
  assert (∀ m, resolve_mode url "auto" = Value m →
               m ∈ ["single"; "sitemap"; "recursive"]) as Hin.
  { intros m [[_ ->]|[(_ & _ & ->)|(_ & _ & ->)]]%resolve_mode_auto;
      set_solver. }
  split; [done|]. split; [|split; [|split]].
  - intros Htxt. unfold resolve_mode. simpl.
    by rewrite is_txt_endswith_txt, (proj2 (endswith_spec _ _) Htxt).
  - intros Hno Hxml. unfold resolve_mode. simpl.
    rewrite is_txt_endswith_txt.
    destruct (Py.endswith url ".txt") eqn:Htxt.
    { by apply endswith_spec in Htxt. }
    unfold is_sitemap. by rewrite (proj2 (endswith_spec _ _) Hxml).
  - intros e. unfold resolve_mode, is_sitemap. simpl.
    rewrite is_txt_endswith_txt.
    destruct (Py.endswith url ".txt") eqn:Htxt.
    { apply endswith_spec in Htxt. split; [done|]. by intros [? _]. }
    destruct (Py.endswith url "sitemap.xml") eqn:Hxml.
    { apply endswith_spec in Hxml. split; [done|]. by intros (_ & ? & _). }
    assert (¬ ends_with url ".txt") as Hno1.
    { intros H%endswith_spec. congruence. }
    assert (¬ ends_with url "sitemap.xml") as Hno2.
    { intros H%endswith_spec. congruence. }
    destruct (urlparse_path url) as [path|e1]; simpl.
    + split; [by destruct (Py.contains "sitemap" path)|]. by intros (_ & _ & ?).
    + split; [by intros [= ->]|]. by intros (_ & _ & [= ->]).
  - intros m Hm. destruct (decide (requested = "auto")) as [->|Hne].
    + apply resolve_mode_explicit. intros ->. specialize (Hin _ Hm).
      by apply (bool_decide_pack _) in Hin.
    + rewrite (resolve_mode_explicit url requested) in Hm by done.
      injection Hm as <-. by apply resolve_mode_explicit.
Qed.

Lemma resolve_mode_detects_witness :
  @resolve_mode urllib_model "https://x.test/sitemap.txt" "auto" = Value "single"
  ∧ @resolve_mode urllib_model "http://[::1/x" "auto" = Raises "Invalid IPv6 URL".
Proof.
  destruct (@resolve_mode_detects urllib_model "https://x.test/sitemap.txt" "auto")
    as (_ & Htxt & _ & _).
  destruct (@resolve_mode_detects urllib_model "http://[::1/x" "auto")
    as (_ & _ & _ & Hraises & _).
  split.
  - apply Htxt. by exists "https://x.test/sitemap".
  - apply Hraises. split; [|split; [|reflexivity]].
    + intros H%endswith_spec. by vm_compute in H.
    + intros H%endswith_spec. by vm_compute in H.
Defined.


(** ** extract_code_blocks *)

Example extract_code_blocks_two :
  extract_code_blocks
    (Py.str (Py.chars "intro" ++ [Py.newline] ++ Py.chars "```python"
             ++ [Py.newline] ++ Py.chars "  x = 1  " ++ [Py.newline]
             ++ Py.chars "```" ++ [Py.newline] ++ Py.chars "text ````"
             ++ [Py.newline] ++ Py.chars "a" ++ [Py.newline] ++ Py.chars "b"
             ++ [Py.newline] ++ Py.chars "```"))
  = ["x = 1"; Py.str (Py.chars "a" ++ [Py.newline] ++ Py.chars "b")].
Proof. vm_compute. reflexivity. Qed.

Lemma findall_go_skip n l1 l2 :
  length l1 = n → CodeBlocks.findall_go n (l1 ++ l2) = CodeBlocks.findall_go 0 l2.
Proof.
  revert n. induction l1 as [|c l1 IH]; intros n Hlen; simpl in *.
  - by subst.
  - destruct n as [|n]; [done|]. apply IH. lia.
Qed.

Lemma findall_go_here c l :
  CodeBlocks.findall_go 0 (c :: l)
  = match CodeBlocks.match_block (c :: l) with
    | Some (body, n) => body :: CodeBlocks.findall_go (n - 1) l
    | None => CodeBlocks.findall_go 0 l
    end.
Proof. reflexivity. Qed.

Lemma findall_go_no_backtick pre l :
  CodeBlocks.backtick ∉ pre →
  CodeBlocks.findall_go 0 (pre ++ l) = CodeBlocks.findall_go 0 l.
Proof.
  induction pre as [|c pre IH]; [done|].
  intros [Hc Hpre]%not_elem_of_cons.
  rewrite <- app_comm_cons, findall_go_here.
  assert (CodeBlocks.match_block (c :: pre ++ l) = None) as ->.
  { unfold CodeBlocks.match_block, CodeBlocks.backtick in *.
    destruct c as [[] [] [] [] [] [] [] []]; done. }
  by apply IH.
Qed.

Lemma skip_letters_tag tag l :
  forallb UrlModel.is_alpha tag = true →
  CodeBlocks.skip_letters (tag ++ Py.newline :: l) = Py.newline :: l.
Proof.
  induction tag as [|c tag IH]; simpl; [done|].
  intros [-> Htag]%andb_true_iff. by apply IH.
Qed.

Lemma lazy_body_eq l :
  CodeBlocks.lazy_body l
  = if bool_decide (CodeBlocks.closing `prefix_of` l) then Some ([], drop 4 l)
    else match l with
         | [] => None
         | c :: l' =>
             match CodeBlocks.lazy_body l' with
             | Some (body, rest) => Some (c :: body, rest)
             | None => None
             end
         end.
Proof. by destruct l. Qed.

Lemma lazy_body_first body post :
  CodeBlocks.backtick ∉ body →
  CodeBlocks.lazy_body (body ++ CodeBlocks.closing ++ post) = Some (body, post).
Proof.
  induction body as [|c body IH]; intros Hno; rewrite lazy_body_eq.
  - rewrite bool_decide_eq_true_2; [done|]. by exists post.
  - apply not_elem_of_cons in Hno as [Hc Hbody].
    rewrite bool_decide_eq_false_2.
    + rewrite <- app_comm_cons. by rewrite IH.
    + intros [k Hk]. injection Hk as _ Hk.
      destruct body as [|c' body]; simpl in Hk; [done|].
      injection Hk as -> _. apply Hbody, list_elem_of_here.
Qed.

Lemma match_block_fenced tag body post :
  forallb UrlModel.is_alpha tag = true →
  CodeBlocks.backtick ∉ body →
  CodeBlocks.match_block
    (CodeBlocks.backtick :: CodeBlocks.backtick :: CodeBlocks.backtick
     :: tag ++ Py.newline :: body ++ CodeBlocks.closing ++ post)
  = Some (body, 3 + length tag + 1 + length body + 4).
Proof.
  intros Htag Hbody. unfold CodeBlocks.match_block, CodeBlocks.backtick.
  rewrite skip_letters_tag by done.
  rewrite bool_decide_eq_true_2 by done.
  rewrite lazy_body_first by done. f_equal. f_equal.
  simpl. rewrite !length_app. simpl. rewrite !length_app. simpl. lia.
Qed.

(** The blocks of a text that starts with text without backticks followed
    by one fenced block. *)
Lemma findall_go_fenced pre tag body post :
  CodeBlocks.backtick ∉ pre →
  forallb UrlModel.is_alpha tag = true →
  CodeBlocks.backtick ∉ body →
  CodeBlocks.findall_go 0
    (pre ++ CodeBlocks.backtick :: CodeBlocks.backtick :: CodeBlocks.backtick
         :: tag ++ Py.newline :: body ++ CodeBlocks.closing ++ post)
  = body :: CodeBlocks.findall_go 0 post.
Proof.
  intros Hpre Htag Hbody. rewrite findall_go_no_backtick by done.
  rewrite findall_go_here, match_block_fenced by done. f_equal.
  replace (CodeBlocks.backtick :: CodeBlocks.backtick
           :: tag ++ Py.newline :: body ++ CodeBlocks.closing ++ post)
    with ((CodeBlocks.backtick :: CodeBlocks.backtick
           :: tag ++ Py.newline :: body ++ CodeBlocks.closing) ++ post).
  - apply findall_go_skip. simpl. rewrite !length_app. simpl.
    rewrite !length_app. simpl. lia.
  - simpl. rewrite <- !app_assoc. simpl. by rewrite <- !app_assoc.
Qed.

(** X23: every block that [extract_code_blocks] returns is stripped: it
    neither starts nor ends with whitespace. *)
Theorem extract_code_blocks_stripped (content : string) :
  Forall (λ block, trimmed (Py.chars block)) (extract_code_blocks content).
Proof.
  unfold extract_code_blocks. apply Forall_fmap, Forall_forall.
  intros m _. simpl. rewrite chars_str. apply strip_trimmed.
Qed.

(** X24: a fenced block is found and the search goes on after it.  When
    the text before a fence has no backtick, the language tag is made of
    letters (or is empty) and the body has no backtick, the first block is
    the stripped body and the other blocks are those of the text after the
    closing fence; text without any backtick has no block. *)
Theorem extract_code_blocks_fenced (pre tag body post : string) :
  CodeBlocks.backtick ∉ Py.chars pre →
  forallb UrlModel.is_alpha (Py.chars tag) = true →
  CodeBlocks.backtick ∉ Py.chars body →
  extract_code_blocks pre = []
  ∧ extract_code_blocks
      (pre +:+ "```" +:+ tag +:+ Py.str [Py.newline] +:+ body
       +:+ Py.str CodeBlocks.closing +:+ post)
    = Py.str (Text.strip (Py.chars body)) :: extract_code_blocks post.
Proof.
  intros Hpre Htag Hbody. unfold extract_code_blocks. split.
  - rewrite <- (app_nil_r (Py.chars pre)), findall_go_no_backtick by done. done.
  - rewrite !chars_app, !chars_str.
    transitivity ((λ m, Py.str (Text.strip m))
                    <$> Py.chars body :: CodeBlocks.findall_go 0 (Py.chars post));
      [|done].
    f_equal.
    exact (findall_go_fenced (Py.chars pre) (Py.chars tag) (Py.chars body)
                             (Py.chars post) Hpre Htag Hbody).
Qed.

Lemma extract_code_blocks_fenced_witness :
  extract_code_blocks "see: " = []
  ∧ extract_code_blocks
      ("see: " +:+ "```" +:+ "python" +:+ Py.str [Py.newline] +:+ "  x = 1 "
       +:+ Py.str CodeBlocks.closing +:+ " done")
    = Py.str (Text.strip (Py.chars "  x = 1 ")) :: extract_code_blocks " done".
Proof.
  apply extract_code_blocks_fenced.
  - apply (bool_decide_unpack _). by vm_compute.
  - reflexivity.
  - apply (bool_decide_unpack _). by vm_compute.
Defined.
